(** * NLP processor: entity categorisation, context windows, keyword fallback

    A shallow embedding of [src/nlp_processor.py]: the parser of the vendor's
    entity-extraction response ([_parse_extraction_response]), the context
    window ([_extract_context]) and the keyword matcher used when the vendor
    is not available ([_demo_extract_entities]).

    Python values are modelled as they are at run time: a JSON-decoded
    object is a [value] (dicts are [gmap string value]), a Python [float]
    is a binary64 primitive float, an [int] is a [Z], and an operation that
    raises in Python returns [Raise] here.  Strings are sequences of 8-bit
    characters read as the code points 0..255: the model covers the texts
    whose characters are all below U+0100, on which Python's [lower] works
    character by character; a text with other characters is outside it. *)

From Stdlib Require Import ZArith Bool List Ascii String Lia.
From Stdlib Require Import PrimFloat SpecFloat FloatOps.
From stdpp Require Import base option gmap strings list fin_maps.

Set Warnings "-inexact-float,-register-all".
Local Open Scope string_scope.
Local Open Scope Z_scope.

(** ** Exceptions and results *)

Inductive exn :=
  TypeError | ValueError | AttributeError | OverflowError | KeyError.

Inductive result (A : Type) : Type :=
| Ok (a : A)
| Raise (e : exn).
Arguments Ok {A} a.
Arguments Raise {A} e.

Definition rbind {A B : Type} (f : A -> result B) (r : result A) : result B :=
  match r with
  | Ok a => f a
  | Raise e => Raise e
  end.

#[global] Instance result_ret : MRet result := fun A a => Ok a.
#[global] Instance result_bind : MBind result := fun A B f r => rbind f r.

Definition is_ok {A : Type} (r : result A) : bool :=
  match r with Ok _ => true | Raise _ => false end.

(** ** Python strings *)

Module Str.

Definition code (c : ascii) : Z := Z.of_N (N_of_ascii c).
Definition chr (z : Z) : ascii := ascii_of_N (Z.to_N z).

(** [str.isspace] on the code points below 256. *)
Definition is_space (c : ascii) : bool :=
  let n := code c in
  ((9 <=? n) && (n <=? 13)) || ((28 <=? n) && (n <=? 32))
  || (n =? 133) || (n =? 160).

Definition is_upper (c : ascii) : bool :=
  let n := code c in
  ((65 <=? n) && (n <=? 90))
  || ((192 <=? n) && (n <=? 222) && negb (n =? 215)).

Definition is_ascii_lower (c : ascii) : bool :=
  let n := code c in (97 <=? n) && (n <=? 122).

Definition is_ascii_upper (c : ascii) : bool :=
  let n := code c in (65 <=? n) && (n <=? 90).

Definition lower_char (c : ascii) : ascii :=
  if is_upper c then chr (code c + 32) else c.

(** Upper-casing of the ASCII letters; the source applies [upper] and
    [title] to its keyword tables only, which are ASCII. *)
Definition upper_char (c : ascii) : ascii :=
  if is_ascii_lower c then chr (code c - 32) else c.

Fixpoint map (f : ascii -> ascii) (s : string) : string :=
  match s with
  | EmptyString => EmptyString
  | String c r => String (f c) (map f r)
  end.

(** [s.lower()] for a string of code points below 256.  There the
    lower-casing is character by character and keeps the length; the
    characters whose lower-casing is longer (such as U+0130) are not
    characters of this model. *)
Definition lower (s : string) : string := map lower_char s.

(** [s.upper()] *)
Definition upper (s : string) : string := map upper_char s.

(** [s.replace(old, new)] for one-character [old] and [new]. *)
Definition replace (old new : ascii) (s : string) : string :=
  map (fun c => if Ascii.eqb c old then new else c) s.

(** [s.title()]: a cased character is upper-cased after an uncased one
    and lower-cased after a cased one. *)
Fixpoint title_from (previous_is_cased : bool) (s : string) : string :=
  match s with
  | EmptyString => EmptyString
  | String c r =>
      String (if previous_is_cased then lower_char c else upper_char c)
             (title_from (is_ascii_lower c || is_ascii_upper c) r)
  end.

Definition title (s : string) : string := title_from false s.

Fixpoint lstrip (s : string) : string :=
  match s with
  | EmptyString => EmptyString
  | String c r => if is_space c then lstrip r else s
  end.

Definition is_empty (s : string) : bool :=
  match s with EmptyString => true | String _ _ => false end.

Fixpoint rstrip (s : string) : string :=
  match s with
  | EmptyString => EmptyString
  | String c r =>
      let r' := rstrip r in
      if is_space c && is_empty r' then EmptyString else String c r'
  end.

(** [s.strip()] *)
Definition strip (s : string) : string := rstrip (lstrip s).

(** [sub in s] *)
Fixpoint contains (sub s : string) : bool :=
  String.prefix sub s
  || match s with
     | EmptyString => false
     | String _ r => contains sub r
     end.

Fixpoint find_from (i : Z) (sub s : string) : Z :=
  if String.prefix sub s then i
  else match s with
       | EmptyString => -1
       | String _ r => find_from (i + 1) sub r
       end.

(** [s.find(sub)]: the index of the first occurrence, or -1. *)
Definition find (sub s : string) : Z := find_from 0 sub s.

Definition len (s : string) : Z := Z.of_nat (String.length s).

Fixpoint drop (n : nat) (s : string) : string :=
  match n, s with
  | O, _ => s
  | S _, EmptyString => EmptyString
  | S n', String _ r => drop n' r
  end.

Fixpoint take (n : nat) (s : string) : string :=
  match n, s with
  | O, _ => EmptyString
  | S _, EmptyString => EmptyString
  | S n', String c r => String c (take n' r)
  end.

(** How a slice bound is read against a sequence of length [n]: a
    negative bound counts from the end, and both are clamped. *)
Definition slice_bound (n i : Z) : Z :=
  if i <? 0 then Z.max 0 (i + n) else Z.min i n.

(** [s[start:stop]] *)
Definition slice (s : string) (start stop : Z) : string :=
  let a := slice_bound (len s) start in
  let b := slice_bound (len s) stop in
  if a <? b then take (Z.to_nat (b - a)) (drop (Z.to_nat a) s)
  else EmptyString.

End Str.

(** ** Python floats and numbers *)

Module Float.

(** [float(n)] for an [int]: the nearest binary64 value, ties to even;
    [OverflowError] when that is beyond the largest finite value. *)
Definition of_Z (z : Z) : result float :=
  let f := SF2Prim (binary_normalize prec emax z 0 false) in
  if is_infinity f then Raise OverflowError else Ok f.

(** The binary64 value nearest to [(-1)^neg * m * 10^dexp], for [0 <= m].
    A negative [dexp] is a division: the quotient is taken with at least
    64 significant bits and one more bit that records a non-zero
    remainder, then rounded once. *)
Definition of_decimal (neg : bool) (m dexp : Z) : float :=
  let signed (x : Z) := if neg then - x else x in
  SF2Prim
    (if 0 <=? dexp then
       binary_normalize prec emax (signed (m * 10 ^ dexp)) 0 neg
     else
       let q := 10 ^ (- dexp) in
       let s := Z.max 0 (64 + Z.log2 q - Z.log2 m) in
       let n := m * 2 ^ s in
       let mant := 2 * (n / q) + (if n mod q =? 0 then 0 else 1) in
       binary_normalize prec emax (signed mant) (- (s + 1)) neg).

Definition is_digit (c : ascii) : bool :=
  (48 <=? Str.code c) && (Str.code c <=? 57).

(** Underscores are allowed between two digits only. *)
Fixpoint underscores_ok (prev : ascii) (s : string) : bool :=
  match s with
  | EmptyString => negb (Ascii.eqb prev "_")
  | String c r =>
      (if Ascii.eqb c "_" then is_digit prev
       else if Ascii.eqb prev "_" then is_digit c else true)
      && underscores_ok c r
  end.

Fixpoint remove_underscores (s : string) : string :=
  match s with
  | EmptyString => EmptyString
  | String c r =>
      if Ascii.eqb c "_" then remove_underscores r
      else String c (remove_underscores r)
  end.

(** Reads a run of digits: the mantissa extended by them, how many were
    read, and the rest of the string. *)
Fixpoint digits (acc count : Z) (s : string) : Z * Z * string :=
  match s with
  | String c r =>
      if is_digit c then digits (10 * acc + (Str.code c - 48)) (count + 1) r
      else (acc, count, s)
  | EmptyString => (acc, count, s)
  end.

Definition sign (s : string) : bool * string :=
  match s with
  | String "-" r => (true, r)
  | String "+" r => (false, r)
  | _ => (false, s)
  end.

(** The exponent part: empty, or [e]/[E], an optional sign and at least
    one digit, up to the end of the string. *)
Definition exponent (s : string) : option Z :=
  match s with
  | EmptyString => Some 0
  | String c r =>
      if Ascii.eqb c "e" || Ascii.eqb c "E" then
        let '(neg, r1) := sign r in
        match digits 0 0 r1 with
        | (e, n, EmptyString) =>
            if 0 <? n then Some (if neg then - e else e) else None
        | _ => None
        end
      else None
  end.

(** The white space that [float] skips at both ends of a string: the
    ASCII blanks (tab to carriage return, and the space) and, of the
    characters from 128, those that are spaces (U+0085, U+00A0).  The
    separators U+001C to U+001F are not among them, though [str.strip]
    removes them. *)
Definition is_blank (c : ascii) : bool :=
  let n := Str.code c in
  ((9 <=? n) && (n <=? 13)) || (n =? 32) || (n =? 133) || (n =? 160).

Fixpoint skip_blanks (s : string) : string :=
  match s with
  | EmptyString => EmptyString
  | String c r => if is_blank c then skip_blanks r else s
  end.

Fixpoint drop_blanks_at_end (s : string) : string :=
  match s with
  | EmptyString => EmptyString
  | String c r =>
      let r' := drop_blanks_at_end r in
      if is_blank c && Str.is_empty r' then EmptyString else String c r'
  end.

(** [float(s)] for a [str]. *)
Definition of_string (s : string) : result float :=
  if negb (underscores_ok "000" s) then Raise ValueError else
  let '(neg, body) :=
    sign (drop_blanks_at_end (skip_blanks (remove_underscores s))) in
  let word := Str.lower body in
  if String.eqb word "inf" || String.eqb word "infinity" then
    Ok (if neg then neg_infinity else infinity)
  else if String.eqb word "nan" then Ok nan
  else
    let '(m1, n1, r1) := digits 0 0 body in
    let '(m2, n2, r2) :=
      match r1 with
      | String "." r => digits m1 0 r
      | _ => (m1, 0, r1)
      end in
    if n1 + n2 =? 0 then Raise ValueError
    else match exponent r2 with
         | Some e => Ok (of_decimal neg m2 (e - n2))
         | None => Raise ValueError
         end.

(** Exact comparison of a float with an integer, as Python compares an
    [int] with a [float]. *)
Definition compare_Z (f : float) (n : Z) : option comparison :=
  match Prim2SF f with
  | S754_nan => None
  | S754_zero _ => Some (0 ?= n)
  | S754_infinity s => Some (if s then Lt else Gt)
  | S754_finite s m e =>
      let v := if s then Z.neg m else Z.pos m in
      Some (if 0 <=? e then (v * 2 ^ e ?= n) else (v ?= n * 2 ^ (- e)))
  end.

End Float.

Inductive num :=
| NInt (z : Z)
| NFloat (f : float).

Module Num.

Definition to_float (a : num) : result float :=
  match a with
  | NInt z => Float.of_Z z
  | NFloat f => Ok f
  end.

(** [a - b] *)
Definition sub (a b : num) : result num :=
  match a, b with
  | NInt x, NInt y => Ok (NInt (x - y))
  | _, _ => x ← to_float a; y ← to_float b; Ok (NFloat (PrimFloat.sub x y))
  end.

(** [a + b] *)
Definition add (a b : num) : result num :=
  match a, b with
  | NInt x, NInt y => Ok (NInt (x + y))
  | _, _ => x ← to_float a; y ← to_float b; Ok (NFloat (PrimFloat.add x y))
  end.

(** [a < b] *)
Definition lt (a b : num) : bool :=
  match a, b with
  | NInt x, NInt y => x <? y
  | NFloat x, NFloat y => PrimFloat.ltb x y
  | NFloat x, NInt y =>
      match Float.compare_Z x y with Some Lt => true | _ => false end
  | NInt x, NFloat y =>
      match Float.compare_Z y x with Some Gt => true | _ => false end
  end.

(** [max(a, b)]: the second argument only when it is greater. *)
Definition max (a b : num) : num := if lt a b then b else a.

(** [min(a, b)]: the second argument only when it is smaller. *)
Definition min (a b : num) : num := if lt b a then b else a.

(** A slice bound must be an [int]. *)
Definition index (a : num) : result Z :=
  match a with
  | NInt z => Ok z
  | NFloat _ => Raise TypeError
  end.

End Num.

(** ** JSON-decoded values *)

Inductive value :=
| VNone
| VBool (b : bool)
| VInt (z : Z)
| VFloat (f : float)
| VStr (s : string)
| VList (l : list value)
| VDict (d : gmap string value).

Module Value.

(** [d.get(k, dflt)] *)
Definition get (d : gmap string value) (k : string) (dflt : value) : value :=
  default dflt (d !! k).

(** [v.lower()]: only a [str] has the method. *)
Definition lower (v : value) : result string :=
  match v with
  | VStr s => Ok (Str.lower s)
  | _ => Raise AttributeError
  end.

(** The numeric types: [bool] is an [int]. *)
Definition as_num (v : value) : result num :=
  match v with
  | VBool b => Ok (NInt (if b then 1 else 0))
  | VInt z => Ok (NInt z)
  | VFloat f => Ok (NFloat f)
  | _ => Raise TypeError
  end.

Definition of_num (a : num) : value :=
  match a with
  | NInt z => VInt z
  | NFloat f => VFloat f
  end.

(** [a - b] *)
Definition sub (a b : value) : result num :=
  x ← as_num a; y ← as_num b; Num.sub x y.

(** [float(v)] *)
Definition to_float (v : value) : result float :=
  match v with
  | VBool b => Ok (if b then 1%float else 0%float)
  | VInt z => Float.of_Z z
  | VFloat f => Ok f
  | VStr s => Float.of_string s
  | VNone | VList _ | VDict _ => Raise TypeError
  end.

Definition is_str (k : string) (v : value) : bool :=
  match v with
  | VStr s => String.eqb s k
  | _ => false
  end.

(** [k in v] for a [str] [k]: a key of a dict, a substring of a string,
    an element of a list. *)
Definition contains (k : string) (v : value) : result bool :=
  match v with
  | VDict d => Ok (bool_decide (is_Some (d !! k)))
  | VStr s => Ok (Str.contains k s)
  | VList l => Ok (existsb (is_str k) l)
  | _ => Raise TypeError
  end.

(** [v[k]] for a [str] [k]: a string and a list take integer indices only. *)
Definition item (k : string) (v : value) : result value :=
  match v with
  | VDict d =>
      match d !! k with
      | Some x => Ok x
      | None => Raise KeyError
      end
  | _ => Raise TypeError
  end.

(** [v.get]: only a dict has the method. *)
Definition as_dict (v : value) : result (gmap string value) :=
  match v with
  | VDict d => Ok d
  | _ => Raise AttributeError
  end.

Fixpoint chars (s : string) : list value :=
  match s with
  | EmptyString => []
  | String c r => VStr (String c EmptyString) :: chars r
  end.

(** What a [for] loop over [v] visits after [len(v)] has been taken.  A
    dict yields its keys; each is a [str], on which the loop body of the
    parser raises at once, so their order is not observed. *)
Definition iterate (v : value) : result (list value) :=
  match v with
  | VList l => Ok l
  | VStr s => Ok (chars s)
  | VDict d => Ok (VStr <$> (map_to_list d).*1)
  | _ => Raise TypeError
  end.

End Value.

(** ** The context window *)

Definition ellipsis : string := "...".

Definition _extract_context (text : string) (offset length context_window : num)
  : result string :=
  if Str.is_empty text then Ok EmptyString else
  d ← Num.sub offset context_window;
  let start := Num.max (NInt 0) d in
  s ← Num.add offset length;
  e ← Num.add s context_window;
  let end_ := Num.min (NInt (Str.len text)) e in
  a ← Num.index start;
  b ← Num.index end_;
  let context := Str.strip (Str.slice text a b) in
  let context := if 0 <? a then String.append ellipsis context else context in
  let context := if b <? Str.len text then String.append context ellipsis else context in
  Ok context.

(** ** The categorised output *)

Abbreviation record := (gmap string value).

Record Entities := {
  problems : list record;
  procedures : list record;
  medications : list record;
  labs : list record
}.

Definition no_entities : Entities :=
  {| problems := []; procedures := []; medications := []; labs := [] |}.

Inductive Category := Problems | Procedures | Medications | Labs.

Definition category_of (c : Category) (es : Entities) : list record :=
  match c with
  | Problems => problems es
  | Procedures => procedures es
  | Medications => medications es
  | Labs => labs es
  end.

(** [entities[c].append(r)] *)
Definition append_to (c : Category) (r : record) (es : Entities) : Entities :=
  match c with
  | Problems =>
      {| problems := problems es ++ [r]; procedures := procedures es;
         medications := medications es; labs := labs es |}
  | Procedures =>
      {| problems := problems es; procedures := procedures es ++ [r];
         medications := medications es; labs := labs es |}
  | Medications =>
      {| problems := problems es; procedures := procedures es;
         medications := medications es ++ [r]; labs := labs es |}
  | Labs =>
      {| problems := problems es; procedures := procedures es;
         medications := medications es; labs := labs es ++ [r] |}
  end.

(** ** The parser of the vendor's response *)

Definition ignore_patterns : list string :=
  [ "review test results"; "patient education"; "lifestyle";
    "education"; "review"; "follow-up"; "follow up";
    "appointment"; "monitoring"; "discussion"; "counseling";
    "instructions"; "recommendations"; "assessment"; "plan" ].

(** The [if]/[elif] chain that maps the lower-cased semantic label. *)
Definition map_category (category : string) : option Category :=
  if Str.contains "problem" category || Str.contains "condition" category
     || Str.contains "diagnosis" category then Some Problems
  else if Str.contains "procedure" category then Some Procedures
  else if Str.contains "medication" category || Str.contains "drug" category
  then Some Medications
  else if Str.contains "lab" category || Str.contains "observation" category
          || Str.contains "test" category then Some Labs
  else None.

(** The codes of an entity: [(imo_code, imo_description, confidence)]. *)
Definition extract_codes (entity : gmap string value)
  : result (value * value * float) :=
  let absent := Ok (VStr "", VStr "", 0%float) in
  match entity !! "codemaps" with
  | None => absent
  | Some codemaps =>
      has_imo ← Value.contains "imo" codemaps;
      if has_imo : bool then
        imo ← Value.item "imo" codemaps;
        imo_data ← Value.as_dict imo;
        confidence ← Value.to_float (Value.get imo_data "confidence" (VFloat 0));
        Ok (Value.get imo_data "lexical_code" (VStr ""),
            Value.get imo_data "lexical_title" (VStr ""),
            confidence)
      else absent
  end.

(** One pass of the loop body up to the record: [None] when a filter
    skips the entity, else the lower-cased label and [entity_data]. *)
Definition entity_data (original_text : string) (entity : gmap string value)
  : result (option (string * record)) :=
  assertion ← Value.lower (Value.get entity "assertion" (VStr ""));
  if negb (String.eqb assertion "present") then Ok None else
  lowered ← Value.lower (Value.get entity "text" (VStr ""));
  let entity_text := Str.strip lowered in
  if existsb (fun pattern => Str.contains pattern entity_text) ignore_patterns
  then Ok None else
  category ← Value.lower (Value.get entity "semantic" (VStr ""));
  let offset := Value.get entity "begin" (VInt 0) in
  let end_offset := Value.get entity "end" (VInt 0) in
  length ← Value.sub end_offset offset;
  off ← Value.as_num offset;
  context ← _extract_context original_text off length (NInt 200);
  '(imo_code, imo_description, confidence) ← extract_codes entity;
  Ok (Some (category,
    list_to_map
      [ ("text", Value.get entity "text" (VStr ""));
        ("code", imo_code);
        ("code_system", VStr "IMO");
        ("description", imo_description);
        ("offset", offset);
        ("length", Value.of_num length);
        ("confidence", VFloat confidence);
        ("context", VStr context);
        ("entity_id", Value.get entity "id" (VStr ""));
        ("semantic", Value.get entity "semantic" (VStr ""));
        ("assertion", Value.get entity "assertion" (VStr ""));
        ("codemaps", Value.get entity "codemaps" (VDict ∅)) ])).

(** The loop body: the entities collected so far, after this entity. *)
Definition parse_entity (original_text : string) (entities : Entities) (e : value)
  : result Entities :=
  entity ← Value.as_dict e;
  data ← entity_data original_text entity;
  match data with
  | None => Ok entities
  | Some (category, r) =>
      Ok (match map_category category with
          | Some c => append_to c r entities
          | None => entities
          end)
  end.

Fixpoint parse_entities (original_text : string) (entities : Entities)
  (es : list value) : result Entities :=
  match es with
  | [] => Ok entities
  | e :: rest =>
      entities' ← parse_entity original_text entities e;
      parse_entities original_text entities' rest
  end.

Definition _parse_extraction_response (response : gmap string value)
  (original_text : string) : result Entities :=
  match response !! "entities" with
  | None => Ok no_entities
  | Some v =>
      es ← Value.iterate v;
      parse_entities original_text no_entities es
  end.

(** ** The keyword matcher *)

Definition problem_keywords : list string :=
  [ "hypertension"; "diabetes"; "stemi"; "myocardial infarction"; "chest pain";
    "hyperlipidemia"; "pain"; "infection"; "fever"; "pneumonia"; "copd";
    "heart failure"; "arrhythmia"; "stroke"; "asthma" ].

Definition procedure_keywords : list string :=
  [ "catheterization"; "surgery"; "biopsy"; "intubation"; "procedure";
    "operation"; "endoscopy"; "colonoscopy"; "angiography"; "stent" ].

Definition medication_keywords : list string :=
  [ "aspirin"; "metformin"; "lisinopril"; "atorvastatin"; "clopidogrel";
    "heparin"; "insulin"; "warfarin"; "levothyroxine"; "amlodipine";
    "omeprazole"; "prednisone"; "albuterol" ].

Definition lab_keywords : list string :=
  [ "troponin"; "ekg"; "blood pressure"; "heart rate"; "glucose";
    "hemoglobin"; "creatinine"; "bun"; "wbc"; "platelets"; "inr";
    "cholesterol"; "ldl"; "hdl"; "triglycerides" ].

(** The dict literal that each of the four loops appends. *)
Definition demo_record (keyword code_system : string) (confidence : float)
  (context : string) : record :=
  list_to_map
    [ ("text", VStr (Str.title keyword));
      ("code", VStr (String.append "DEMO-" (Str.upper (Str.replace " " "-" keyword))));
      ("code_system", VStr code_system);
      ("description", VStr (Str.title keyword));
      ("confidence", VFloat confidence);
      ("context", VStr context) ].

(** One of the four loops, over its keyword table. *)
Fixpoint demo_scan (text text_lower code_system : string) (confidence : float)
  (found : list record) (keywords : list string) : result (list record) :=
  match keywords with
  | [] => Ok found
  | keyword :: rest =>
      if Str.contains keyword text_lower then
        let offset := Str.find keyword text_lower in
        context ← _extract_context text (NInt offset) (NInt (Str.len keyword)) (NInt 50);
        demo_scan text text_lower code_system confidence
          (found ++ [demo_record keyword code_system confidence context]) rest
      else demo_scan text text_lower code_system confidence found rest
  end.

Definition _demo_extract_entities (text : string) : result Entities :=
  let text_lower := Str.lower text in
  ps ← demo_scan text text_lower "ICD-10-CM" 0.85%float [] problem_keywords;
  cs ← demo_scan text text_lower "CPT" 0.80%float [] procedure_keywords;
  ms ← demo_scan text text_lower "RxNorm" 0.90%float [] medication_keywords;
  ls ← demo_scan text text_lower "LOINC" 0.75%float [] lab_keywords;
  Ok {| problems := ps; procedures := cs; medications := ms; labs := ls |}.


(** ** The specification's reading of the operations *)

(** The context window as the specification words it: the slice between
    [start] and [end], trimmed, with an ellipsis on each side that was cut.
    The slice is Python's: a negative [end] counts from the end of [text]. *)
Definition extractContext_spec (text : string) (offset length windowRadius : Z)
  : string :=
  match text with
  | EmptyString => EmptyString
  | String _ _ =>
      let start := Z.max 0 (offset - windowRadius) in
      let end_ := Z.min (Str.len text) (offset + length + windowRadius) in
      (if 0 <? start then ellipsis else EmptyString)
      +:+ Str.strip (Str.slice text start end_)
      +:+ (if end_ <? Str.len text then ellipsis else EmptyString)
  end.





Definition first_is_space (s : string) : bool :=
  match s with
  | EmptyString => false
  | String c _ => Str.is_space c
  end.

Fixpoint last_is_space (s : string) : bool :=
  match s with
  | EmptyString => false
  | String c EmptyString => Str.is_space c
  | String _ r => last_is_space r
  end.

(** No white space at either end. *)
Definition trimmed (s : string) : bool :=
  negb (first_is_space s) && negb (last_is_space s).

(** [core] occurs in [text] as a run of consecutive characters. *)
Definition substring_of (core text : string) : Prop :=
  exists before after, text = before +:+ core +:+ after.





(** The confidences of the keyword matcher, one for each of its lists. *)
Definition demo_confidences : list float :=
  [ 0.85%float; 0.80%float; 0.90%float; 0.75%float ].


(** The record keeps the span's assertion, and it reads "present". *)
Definition assertion_is_present (r : record) : Prop :=
  exists s, r !! "assertion" = Some (VStr s) /\ Str.lower s = "present".

Definition has_fields (fields : list string) (r : record) : Prop :=
  dom r = (list_to_set fields : gset string).

(** The keys of a record of the parser, and of the keyword matcher. *)
Definition parsed_fields : list string :=
  [ "text"; "code"; "code_system"; "description"; "offset"; "length";
    "confidence"; "context"; "entity_id"; "semantic"; "assertion"; "codemaps" ].

Definition demo_fields : list string :=
  [ "text"; "code"; "code_system"; "description"; "confidence"; "context" ].

Definition one_problem (r : record) : Entities :=
  {| problems := [r]; procedures := []; medications := []; labs := [] |}.

(** A span as the vendor documents it: strings for the text fields,
    integers for the offsets, a float for the confidence; each may be
    absent. *)
Definition str_or_absent (entity : gmap string value) (k : string) : bool :=
  match entity !! k with
  | None | Some (VStr _) => true
  | _ => false
  end.

Definition int_or_absent (entity : gmap string value) (k : string) : bool :=
  match entity !! k with
  | None | Some (VInt _) => true
  | _ => false
  end.

Definition codemaps_well_formed (entity : gmap string value) : bool :=
  match entity !! "codemaps" with
  | None => true
  | Some (VDict d) =>
      match d !! "imo" with
      | None => true
      | Some (VDict imo_data) =>
          match imo_data !! "confidence" with
          | None | Some (VFloat _) => true
          | _ => false
          end
      | _ => false
      end
  | _ => false
  end.

Definition well_formed_span (e : value) : bool :=
  match e with
  | VDict entity =>
      str_or_absent entity "assertion" && str_or_absent entity "text"
      && str_or_absent entity "semantic"
      && int_or_absent entity "begin" && int_or_absent entity "end"
      && codemaps_well_formed entity
  | _ => false
  end.

(** ** Sample inputs *)

Definition dict (l : list (string * value)) : value := VDict (list_to_map l).

(** A response with one entity. *)
Definition response_of (entity : list (string * value)) : gmap string value :=
  list_to_map [ ("entities", VList [dict entity]) ].

Definition sample_text : string :=
  "Patient has hypertension and takes aspirin daily.".

(** A span of "hypertension" in [sample_text], with a vendor confidence. *)
Definition sample_span (begin end_ : Z) (assertion : string) (confidence : value)
  : list (string * value) :=
  [ ("text", VStr "hypertension"); ("begin", VInt begin); ("end", VInt end_);
    ("semantic", VStr "problem"); ("assertion", VStr assertion); ("id", VStr "e1");
    ("codemaps", dict [ ("imo", dict [ ("lexical_code", VStr "1234");
                                        ("lexical_title", VStr "Hypertension");
                                        ("confidence", confidence) ]) ]) ].


(** The record the parser builds for [sample_span 12 end_ "present" vendor]
    when [float(vendor)] is [confidence]. *)
Definition sample_record (length : Z) (context : string) (vendor : value)
  (confidence : float) : record :=
  list_to_map
    [ ("text", VStr "hypertension"); ("code", VStr "1234");
      ("code_system", VStr "IMO"); ("description", VStr "Hypertension");
      ("offset", VInt 12); ("length", VInt length);
      ("confidence", VFloat confidence); ("context", VStr context);
      ("entity_id", VStr "e1"); ("semantic", VStr "problem");
      ("assertion", VStr "present");
      ("codemaps", dict [ ("imo", dict [ ("lexical_code", VStr "1234");
                                          ("lexical_title", VStr "Hypertension");
                                          ("confidence", vendor) ]) ]) ].

(** ** The processor and the vendor's service *)

(** Truth value of a value, as [if v] and [not v] read it. *)
Definition truthy (v : value) : bool :=
  match v with
  | VNone => false
  | VBool b => b
  | VInt z => negb (z =? 0)
  | VFloat f => negb (PrimFloat.is_zero f)
  | VStr s => negb (Str.is_empty s)
  | VList l => match l with [] => false | _ :: _ => true end
  | VDict d => negb (bool_decide (d = ∅))
  end.

(** The attributes of an [NLPProcessor].  [None] is [VNone]. *)
Record NLPProcessor := {
  auth_url : value;
  entity_extraction_url : value;
  normalize_enrichment_url : value;
  normalize_url : value;
  client_id : value;
  client_secret : value;
  access_token : value;
  token_expiry : value;
  workflow_client_id : value;
  workflow_client_secret : value;
  workflow_access_token : value;
  workflow_token_expiry : value
}.

(** [NLPProcessor()], for the attributes of the [config] module: an
    attribute is there when its name is a key.  Reading [imo_client_id] or
    [imo_client_secret] off a module without it raises [AttributeError],
    which the constructor handles by setting every credential to [None]. *)
Definition __init__ (config : gmap string value) : NLPProcessor :=
  let auth := Value.get config "imo_auth_url"
                (VStr "https://auth.imohealth.com/oauth/token") in
  let extraction := Value.get config "imo_entity_extraction_url"
                      (VStr "https://api.imohealth.com/entityextraction/pipelines/imo-clinical-comprehensive") in
  let enrichment := Value.get config "imo_precision_normalize_enrichment_url"
                      (VStr "https://api.imohealth.com/precision/normalize/enrichment") in
  let normalize := Value.get config "imo_precision_normalize_url"
                     (VStr "https://api.imohealth.com/precision/normalize") in
  match config !! "imo_client_id", config !! "imo_client_secret" with
  | Some id, Some secret =>
      {| auth_url := auth; entity_extraction_url := extraction;
         normalize_enrichment_url := enrichment; normalize_url := normalize;
         client_id := id; client_secret := secret;
         access_token := VNone; token_expiry := VNone;
         workflow_client_id :=
           Value.get config "imo_diagnostic_workflow_client_id" VNone;
         workflow_client_secret :=
           Value.get config "imo_diagnostic_workflow_client_secret" VNone;
         workflow_access_token := VNone; workflow_token_expiry := VNone |}
  | _, _ =>
      {| auth_url := auth; entity_extraction_url := extraction;
         normalize_enrichment_url := enrichment; normalize_url := normalize;
         client_id := VNone; client_secret := VNone;
         access_token := VNone; token_expiry := VNone;
         workflow_client_id := VNone; workflow_client_secret := VNone;
         workflow_access_token := VNone; workflow_token_expiry := VNone |}
  end.

(** A call of [requests.post]: the URL, the token that the [Authorization]
    header carries after the word Bearer (if it has that header), and the
    JSON payload.  Every call has the header [Content-Type:
    application/json] and a timeout of 30 seconds. *)
Record request := {
  url : value;
  authorization : option value;
  json : gmap string value
}.

(** What a call of [requests.post] comes to: it raises, or it returns a
    response with a status code and a body that [response.json()] decodes
    ([None] when decoding raises). *)
Inductive http_outcome :=
| HttpException
| HttpResponse (status_code : Z) (body : option value).

(** The token request of the two token functions. *)
Definition token_request (auth id secret : value) : request :=
  {| url := auth;
     authorization := None;
     json := list_to_map
               [ ("grant_type", VStr "client_credentials");
                 ("client_id", id);
                 ("client_secret", secret);
                 ("audience", VStr "https://api.imohealth.com") ] |}.

(** [token and expiry and time.time() < expiry], with the clock at [now]. *)
Definition token_is_valid (token expiry : value) (now : float) : result bool :=
  if truthy token then
    if truthy expiry then
      e ← Value.as_num expiry; Ok (Num.lt (NFloat now) e)
    else Ok false
  else Ok false.

(** The [try] block of the two token functions, given what the request
    came to and the clock at [now] when the answer is read: the token and
    the expiry that the processor holds afterwards, and the value
    returned.  An exception after the token has been stored leaves the
    stored token in place. *)
Definition store_token (token expiry : value) (now : float)
  (outcome : http_outcome) : value * value * value :=
  match outcome with
  | HttpException => (token, expiry, VNone)
  | HttpResponse status_code body =>
      if status_code =? 200 then
        match body with
        | None => (token, expiry, VNone)
        | Some result =>
            match Value.as_dict result with
            | Raise _ => (token, expiry, VNone)
            | Ok d =>
                let token' := Value.get d "access_token" VNone in
                let expires_in := Value.get d "expires_in" (VInt 3600) in
                match (n ← Value.as_num expires_in;
                       t ← Num.add (NFloat now) n;
                       Num.sub t (NInt 60)) with
                | Ok expiry' => (token', Value.of_num expiry', token')
                | Raise _ => (token', expiry, VNone)
                end
            end
        end
      else (token, expiry, VNone)
  end.

Definition set_token (self : NLPProcessor) (token expiry : value) : NLPProcessor :=
  {| auth_url := auth_url self;
     entity_extraction_url := entity_extraction_url self;
     normalize_enrichment_url := normalize_enrichment_url self;
     normalize_url := normalize_url self;
     client_id := client_id self; client_secret := client_secret self;
     access_token := token; token_expiry := expiry;
     workflow_client_id := workflow_client_id self;
     workflow_client_secret := workflow_client_secret self;
     workflow_access_token := workflow_access_token self;
     workflow_token_expiry := workflow_token_expiry self |}.

Definition set_workflow_token (self : NLPProcessor) (token expiry : value)
  : NLPProcessor :=
  {| auth_url := auth_url self;
     entity_extraction_url := entity_extraction_url self;
     normalize_enrichment_url := normalize_enrichment_url self;
     normalize_url := normalize_url self;
     client_id := client_id self; client_secret := client_secret self;
     access_token := access_token self; token_expiry := token_expiry self;
     workflow_client_id := workflow_client_id self;
     workflow_client_secret := workflow_client_secret self;
     workflow_access_token := token;
     workflow_token_expiry := expiry |}.

(** [self._get_access_token()], with the clock at [now] when the stored
    token is checked and at [later] when an answer is read, and [post] for
    what a request comes to: the processor afterwards, the requests made,
    and the value returned. *)
Definition _get_access_token (self : NLPProcessor) (now later : float)
  (post : request -> http_outcome)
  : result (NLPProcessor * list request * value) :=
  valid ← token_is_valid (access_token self) (token_expiry self) now;
  if valid : bool then Ok (self, [], access_token self)
  else
    let rq := token_request (auth_url self) (client_id self) (client_secret self) in
    let '(token, expiry, returned) :=
      store_token (access_token self) (token_expiry self) later (post rq) in
    Ok (set_token self token expiry, [rq], returned).

(** [self._get_diagnostic_workflow_token()] *)
Definition _get_diagnostic_workflow_token (self : NLPProcessor)
  (now later : float) (post : request -> http_outcome)
  : result (NLPProcessor * list request * value) :=
  valid ← token_is_valid (workflow_access_token self)
            (workflow_token_expiry self) now;
  if valid : bool then Ok (self, [], workflow_access_token self)
  else
    let rq := token_request (auth_url self) (workflow_client_id self)
                (workflow_client_secret self) in
    let '(token, expiry, returned) :=
      store_token (workflow_access_token self) (workflow_token_expiry self)
        later (post rq) in
    Ok (set_workflow_token self token expiry, [rq], returned).

(** [_parse_extraction_response] on a decoded body of any type: a list or
    a string answers ['entities' in response] too, and cannot be indexed
    by it. *)
Definition parse_body (response : value) (original_text : string)
  : result Entities :=
  match response with
  | VDict d => _parse_extraction_response d original_text
  | _ =>
      found ← Value.contains "entities" response;
      if found : bool then
        v ← Value.item "entities" response;
        es ← Value.iterate v;
        parse_entities original_text no_entities es
      else Ok no_entities
  end.

(** The request to the entity extraction service. *)
Definition extraction_request (self : NLPProcessor) (token : value)
  (text : string) : request :=
  {| url := entity_extraction_url self;
     authorization := Some token;
     json := list_to_map [ ("text", VStr text) ] |}.

(** [self.extract_entities(text)]: the processor afterwards, the requests
    made, and the entities returned. *)
Definition extract_entities (self : NLPProcessor) (text : string)
  (now later : float) (post : request -> http_outcome)
  : result (NLPProcessor * list request * Entities) :=
  if Str.is_empty text then Ok (self, [], no_entities)
  else if negb (truthy (client_id self)) || negb (truthy (client_secret self))
  then demo ← _demo_extract_entities text; Ok (self, [], demo)
  else
    match _get_access_token self now later post with
    | Raise _ => demo ← _demo_extract_entities text; Ok (self, [], demo)
    | Ok (self', requests, token) =>
        if negb (truthy token) then
          demo ← _demo_extract_entities text; Ok (self', requests, demo)
        else
          let rq := extraction_request self' token text in
          let fallback :=
            demo ← _demo_extract_entities text;
            Ok (self', (requests ++ [rq])%list, demo) in
          match post rq with
          | HttpException => fallback
          | HttpResponse status_code body =>
              if status_code =? 200 then
                match body with
                | None => fallback
                | Some result =>
                    match parse_body result text with
                    | Ok entities => Ok (self', (requests ++ [rq])%list, entities)
                    | Raise _ => fallback
                    end
                end
              else fallback
          end
    end.

(** The stored expiry is [None] or a float: what the constructor sets and
    the token functions keep. *)
Definition expiry_ok (expiry : value) : Prop :=
  expiry = VNone \/ exists f, expiry = VFloat f.

(** A configuration with credentials, the processor built from it, and a
    service that answers a token request with a token good for an hour
    and an extraction request with [body]. *)
Definition sample_config : gmap string value :=
  list_to_map [ ("imo_client_id", VStr "id"); ("imo_client_secret", VStr "secret") ].

Definition sample_processor : NLPProcessor := __init__ sample_config.

Definition sample_token_body : gmap string value :=
  list_to_map [ ("access_token", VStr "tok"); ("expires_in", VInt 3600) ].

Definition sample_service (body : value) (rq : request) : http_outcome :=
  match authorization rq with
  | None => HttpResponse 200 (Some (VDict sample_token_body))
  | Some _ => HttpResponse 200 (Some body)
  end.

(** A service that cannot be reached. *)
Definition no_service (rq : request) : http_outcome := HttpException.

(** An answer to a token request that yields no token: the request
    raised, the status is not 200, or the body does not decode to a dict. *)
Definition yields_no_token (outcome : http_outcome) : bool :=
  match outcome with
  | HttpException => true
  | HttpResponse status_code body =>
      negb (status_code =? 200)
      || match body with
         | Some (VDict _) => false
         | _ => true
         end
  end.

(** The lists of two results, one after the other. *)
Definition merge (a b : Entities) : Entities :=
  {| problems := problems a ++ problems b;
     procedures := procedures a ++ procedures b;
     medications := medications a ++ medications b;
     labs := labs a ++ labs b |}.

(** How many records a result holds. *)
Definition count (es : Entities) : nat :=
  (List.length (problems es) + List.length (procedures es)
   + List.length (medications es) + List.length (labs es))%nat.


(** What one loop of the keyword matcher finds: a record for each keyword
    of the table that occurs in the lower-cased text, in the order of the
    table, with the window of radius 50 around its first occurrence. *)
Definition demo_found (text code_system : string) (confidence : float)
  (keywords : list string) : list record :=
  List.map
    (fun keyword =>
       demo_record keyword code_system confidence
         (extractContext_spec text (Str.find keyword (Str.lower text))
            (Str.len keyword) 50))
    (List.filter (fun keyword => Str.contains keyword (Str.lower text)) keywords).

(** A keyword of the tables: not empty, no white space at either end. *)
Definition keyword_ok (keyword : string) : bool :=
  negb (Str.is_empty keyword) && trimmed keyword.

(** The record names a keyword, and its context, lower-cased, contains
    that keyword. *)
Definition context_shows_keyword (r : record) : Prop :=
  exists keyword context,
    r !! "text" = Some (VStr (Str.title keyword))
    /\ r !! "context" = Some (VStr context)
    /\ Str.contains keyword (Str.lower context) = true.

(** The characters of [text] at the positions from [start] up to [stop],
    for [0 <= start]; none when [stop <= start]. *)
Definition substring_between (text : string) (start stop : Z) : string :=
  Str.take (Z.to_nat (stop - start)) (Str.drop (Z.to_nat start) text).



(** The keyword stands in the text itself where [find] has put it in the
    lower-cased text: the characters of the text there, lower-cased, are
    the keyword.  This is so whenever lower-casing keeps every position. *)
Definition match_in_place (text keyword : string) : bool :=
  let offset := Str.find keyword (Str.lower text) in
  String.eqb
    (Str.lower (substring_between text offset (offset + Str.len keyword)))
    keyword.

Definition all_keywords : list string :=
  problem_keywords ++ procedure_keywords ++ medication_keywords ++ lab_keywords.

(** Every keyword that occurs in the lower-cased text stands in the text
    at the offset found. *)
Definition matches_in_place (text : string) : bool :=
  forallb
    (fun keyword =>
       implb (Str.contains keyword (Str.lower text)) (match_in_place text keyword))
    all_keywords.

(** * Properties *)

(** ** The model of the built-in operations on samples *)

Example lower_ex : Str.lower "Follow-Up  PLAN" = "follow-up  plan".
Proof. reflexivity. Qed.

Example title_ex : Str.title "myocardial infarction" = "Myocardial Infarction".
Proof. reflexivity. Qed.

Example strip_ex : Str.strip "  a b   " = "a b".
Proof. reflexivity. Qed.

Example find_ex : Str.find "cd" "abcdcd" = 2 /\ Str.find "x" "abc" = -1.
Proof. split; reflexivity. Qed.

Example slice_ex :
  Str.slice "hello world" 0 (-3) = "hello wo" /\ Str.slice "hello" 3 99 = "lo"
  /\ Str.slice "hello" 4 2 = "".
Proof. repeat split; reflexivity. Qed.

Example float_of_string_ex :
  Float.of_string "0.85" = Ok 0.85%float
  /\ Float.of_string " 1e-5 " = Ok 1e-5%float
  /\ Float.of_string "1_000.5" = Ok 1000.5%float
  /\ Float.of_string "-inf" = Ok neg_infinity
  /\ Float.of_string "1.7976931348623159e308" = Ok infinity
  /\ Float.of_string "high" = Raise ValueError
  /\ Float.of_string (String "160" "1.5") = Ok 1.5%float
  /\ Float.of_string (String "028" "1.5") = Raise ValueError
  /\ Float.of_string "1e" = Raise ValueError
  /\ Float.of_string "" = Raise ValueError.
Proof. repeat split; reflexivity. Qed.

Example float_of_Z_ex :
  Float.of_Z 2 = Ok 2%float
  /\ Float.of_Z 9007199254740993 = Ok 9007199254740992%float
  /\ Float.of_Z (2 ^ 1024) = Raise OverflowError.
Proof. repeat split; vm_compute; reflexivity. Qed.

Example to_float_ex :
  Value.to_float VNone = Raise TypeError
  /\ Value.to_float (VBool true) = Ok 1%float
  /\ Value.to_float (VList []) = Raise TypeError
  /\ Value.to_float (VStr "high") = Raise ValueError
  /\ Value.to_float (VInt (2 ^ 1024)) = Raise OverflowError.
Proof. repeat split; vm_compute; reflexivity. Qed.

Example extract_context_ex :
  _extract_context "" (NInt 5) (NInt 3) (NInt 10) = Ok ""
  /\ _extract_context "hello world" (NInt 0) (NInt 5) (NInt 100) = Ok "hello world"
  /\ _extract_context "hello world" (NInt (-205)) (NInt 0) (NInt 200) = Ok "hello...".
Proof. repeat split; reflexivity. Qed.

(** ** Results *)

Ltac rsimpl := unfold mbind, result_bind, rbind in *.

Lemma bind_Ok {A B : Type} (f : A -> result B) (r : result A) (b : B) :
  (r ≫= f) = Ok b -> exists a, r = Ok a /\ f a = Ok b.
Proof. destruct r as [a|e]; rsimpl; [eauto | discriminate]. Qed.

(** ** Strings *)

Lemma append_nil (s : string) : "" +:+ s = s.
Proof. reflexivity. Qed.

Lemma append_cons (c : ascii) (s t : string) :
  String c s +:+ t = String c (s +:+ t).
Proof. reflexivity. Qed.

Lemma append_empty_r (s : string) : s +:+ "" = s.
Proof.
  induction s as [|c s IH]; [reflexivity|]. now rewrite append_cons, IH.
Qed.

Lemma append_assoc (s t u : string) : (s +:+ t) +:+ u = s +:+ t +:+ u.
Proof.
  induction s as [|c s IH]; [reflexivity|]. now rewrite !append_cons, IH.
Qed.

Lemma take_drop (n : nat) (s : string) : s = Str.take n s +:+ Str.drop n s.
Proof.
  revert s; induction n as [|n IH]; intros [|c s]; simpl; try reflexivity.
  now rewrite append_cons, <- IH.
Qed.

Lemma substring_of_refl (s : string) : substring_of s s.
Proof. exists "", "". now rewrite append_nil, append_empty_r. Qed.

Lemma substring_of_empty (s : string) : substring_of "" s.
Proof. exists "", s. reflexivity. Qed.

Lemma substring_of_trans (s t u : string) :
  substring_of s t -> substring_of t u -> substring_of s u.
Proof.
  intros (a & b & ->) (c & d & ->).
  exists (c +:+ a), (b +:+ d). now rewrite !append_assoc.
Qed.

Lemma take_substring (n : nat) (s : string) : substring_of (Str.take n s) s.
Proof. exists "", (Str.drop n s). rewrite append_nil. apply take_drop. Qed.

Lemma drop_substring (n : nat) (s : string) : substring_of (Str.drop n s) s.
Proof.
  exists (Str.take n s), "". rewrite append_empty_r. apply take_drop.
Qed.

Lemma slice_substring (s : string) (start stop : Z) :
  substring_of (Str.slice s start stop) s.
Proof.
  unfold Str.slice. destruct (_ <? _).
  - eapply substring_of_trans; [apply take_substring | apply drop_substring].
  - apply substring_of_empty.
Qed.

Lemma lstrip_suffix (s : string) : exists u, s = u +:+ Str.lstrip s.
Proof.
  induction s as [|c s [u IH]]; simpl; [now exists ""|].
  destruct (Str.is_space c); [|now exists ""].
  exists (String c u). now rewrite append_cons, <- IH.
Qed.

Lemma rstrip_prefix (s : string) : exists v, s = Str.rstrip s +:+ v.
Proof.
  induction s as [|c s [v IH]]; simpl; [now exists ""|].
  destruct (_ && _); [now eexists|].
  exists v. now rewrite append_cons, <- IH.
Qed.

Lemma strip_substring (s : string) : substring_of (Str.strip s) s.
Proof.
  unfold Str.strip.
  destruct (lstrip_suffix s) as [u Hu], (rstrip_prefix (Str.lstrip s)) as [v Hv].
  exists u, v. now rewrite <- Hv.
Qed.

Lemma lstrip_first (s : string) : first_is_space (Str.lstrip s) = false.
Proof.
  induction s as [|c s IH]; simpl; [reflexivity|].
  destruct (Str.is_space c) eqn:E; [exact IH | simpl; exact E].
Qed.

Lemma rstrip_first (s : string) :
  first_is_space s = false -> first_is_space (Str.rstrip s) = false.
Proof.
  destruct s as [|c s]; simpl; [reflexivity|]. intros E. rewrite E. exact E.
Qed.

Lemma rstrip_last (s : string) : last_is_space (Str.rstrip s) = false.
Proof.
  induction s as [|c s IH]; simpl; [reflexivity|].
  destruct (Str.is_space c) eqn:E, (Str.rstrip s) as [|d r] eqn:R;
    simpl in *; try reflexivity; try assumption.
Qed.

Lemma strip_trimmed (s : string) : trimmed (Str.strip s) = true.
Proof.
  unfold trimmed, Str.strip.
  now rewrite rstrip_first, rstrip_last by apply lstrip_first.
Qed.

(** ** The context window on integers *)

Lemma max_int (x : Z) : Num.max (NInt 0) (NInt x) = NInt (Z.max 0 x).
Proof. unfold Num.max, Num.lt. destruct (Z.ltb_spec 0 x); f_equal; lia. Qed.

Lemma min_int (n x : Z) : Num.min (NInt n) (NInt x) = NInt (Z.min n x).
Proof. unfold Num.min, Num.lt. destruct (Z.ltb_spec x n); f_equal; lia. Qed.

(** The window on integer arguments, in closed form. *)
Lemma extract_context_int (text : string) (offset length context_window : Z) :
  _extract_context text (NInt offset) (NInt length) (NInt context_window)
  = Ok (extractContext_spec text offset length context_window).
Proof.
  unfold _extract_context, extractContext_spec.
  destruct text as [|c text]; [reflexivity|].
  cbn [Str.is_empty]. rsimpl. cbn [Num.sub Num.add].
  rewrite max_int, min_int. cbn [Num.index].
  set (a := Z.max 0 _). set (b := Z.min _ _).
  destruct (0 <? a), (b <? _);
    rewrite ?append_nil, ?append_empty_r, ?append_assoc; reflexivity.
Qed.

(** ** The parser, entity by entity *)

(** What has happened when the loop body has built a record. *)
Lemma entity_data_Some (text : string) (entity : gmap string value)
  (label : string) (r : record) :
  entity_data text entity = Ok (Some (label, r)) ->
  exists lowered length off context imo_code imo_description confidence,
    Value.lower (Value.get entity "assertion" (VStr "")) = Ok "present"
    /\ Value.lower (Value.get entity "text" (VStr "")) = Ok lowered
    /\ existsb (fun pattern => Str.contains pattern (Str.strip lowered))
         ignore_patterns = false
    /\ Value.lower (Value.get entity "semantic" (VStr "")) = Ok label
    /\ Value.sub (Value.get entity "end" (VInt 0)) (Value.get entity "begin" (VInt 0))
       = Ok length
    /\ Value.as_num (Value.get entity "begin" (VInt 0)) = Ok off
    /\ _extract_context text off length (NInt 200) = Ok context
    /\ extract_codes entity = Ok (imo_code, imo_description, confidence)
    /\ r = list_to_map
         [ ("text", Value.get entity "text" (VStr ""));
           ("code", imo_code);
           ("code_system", VStr "IMO");
           ("description", imo_description);
           ("offset", Value.get entity "begin" (VInt 0));
           ("length", Value.of_num length);
           ("confidence", VFloat confidence);
           ("context", VStr context);
           ("entity_id", Value.get entity "id" (VStr ""));
           ("semantic", Value.get entity "semantic" (VStr ""));
           ("assertion", Value.get entity "assertion" (VStr ""));
           ("codemaps", Value.get entity "codemaps" (VDict ∅)) ].
Proof.
  unfold entity_data. intros H.
  apply bind_Ok in H as (assertion & Ha & H).
  destruct (String.eqb_spec assertion "present") as [->|_];
    cbn [negb] in H; [|discriminate].
  apply bind_Ok in H as (lowered & Hl & H).
  destruct (existsb _ ignore_patterns) eqn:Hi; [discriminate|].
  apply bind_Ok in H as (category & Hc & H).
  apply bind_Ok in H as (length & Hlen & H).
  apply bind_Ok in H as (off & Hoff & H).
  apply bind_Ok in H as (context & Hctx & H).
  apply bind_Ok in H as ([[imo_code imo_description] confidence] & Hcodes & H).
  injection H as <- <-.
  exists lowered, length, off, context, imo_code, imo_description, confidence.
  repeat split; assumption.
Qed.

(** An entity whose assertion is not "present" leaves the lists as they are,
    whatever its other fields hold. *)
Lemma entity_data_skip (text : string) (entity : gmap string value)
  (assertion : string) :
  Value.lower (Value.get entity "assertion" (VStr "")) = Ok assertion ->
  String.eqb assertion "present" = false ->
  entity_data text entity = Ok None.
Proof. unfold entity_data. intros -> E. rsimpl. now rewrite E. Qed.

Lemma parse_entity_skip (text : string) (entities : Entities)
  (entity : gmap string value) (assertion : string) :
  Value.lower (Value.get entity "assertion" (VStr "")) = Ok assertion ->
  String.eqb assertion "present" = false ->
  parse_entity text entities (VDict entity) = Ok entities.
Proof.
  intros Ha E. unfold parse_entity. cbn [Value.as_dict]. rsimpl.
  now rewrite (entity_data_skip _ _ _ Ha E).
Qed.

Lemma parse_entities_app (text : string) (entities : Entities)
  (es1 es2 : list value) :
  parse_entities text entities (es1 ++ es2)
  = (entities' ← parse_entities text entities es1;
     parse_entities text entities' es2).
Proof.
  revert entities; induction es1 as [|e es1 IH]; intros entities; [reflexivity|].
  cbn [app parse_entities]. rsimpl.
  destruct (parse_entity text entities e) as [entities'|x]; [apply IH|reflexivity].
Qed.

Lemma parse_entities_skip (text : string) (entities : Entities)
  (before after : list value) (entity : gmap string value) (assertion : string) :
  Value.lower (Value.get entity "assertion" (VStr "")) = Ok assertion ->
  String.eqb assertion "present" = false ->
  parse_entities text entities (before ++ VDict entity :: after)
  = parse_entities text entities (before ++ after).
Proof.
  intros Ha E. rewrite !parse_entities_app. rsimpl.
  destruct (parse_entities text entities before) as [entities'|x]; [|reflexivity].
  cbn [parse_entities]. rsimpl.
  now rewrite (parse_entity_skip _ _ _ _ Ha E).
Qed.

(** ** Properties of every record *)

Definition all_records (P : record -> Prop) (es : Entities) : Prop :=
  forall c r, r ∈ category_of c es -> P r.

Lemma all_records_none (P : record -> Prop) : all_records P no_entities.
Proof. intros [] r H; cbn in H; inversion H. Qed.

Lemma all_records_append (P : record -> Prop) (c : Category) (r : record)
  (es : Entities) :
  all_records P es -> P r -> all_records P (append_to c r es).
Proof.
  intros Hes Hr c' r' Hin.
  destruct c, c'; cbn in Hin;
    try (apply elem_of_app in Hin as [Hin|Hin];
         [|apply list_elem_of_singleton in Hin as ->; exact Hr]);
    first [ exact (Hes Problems _ Hin) | exact (Hes Procedures _ Hin)
          | exact (Hes Medications _ Hin) | exact (Hes Labs _ Hin) ].
Qed.

Section RecordInvariant.

Variable P : record -> Prop.
Variable text : string.
Hypothesis built :
  forall entity label r, entity_data text entity = Ok (Some (label, r)) -> P r.

Lemma parse_entity_records (entities out : Entities) (e : value) :
  all_records P entities ->
  parse_entity text entities e = Ok out ->
  all_records P out.
Proof.
  unfold parse_entity. intros Hes H.
  apply bind_Ok in H as (entity & _ & H).
  apply bind_Ok in H as ([[label r]|] & Hd & H).
  - injection H as <-. destruct (map_category label); [|exact Hes].
    apply all_records_append; [exact Hes | eapply built; exact Hd].
  - now injection H as <-.
Qed.

Lemma parse_entities_records (es : list value) (entities out : Entities) :
  all_records P entities ->
  parse_entities text entities es = Ok out ->
  all_records P out.
Proof.
  revert entities; induction es as [|e es IH]; intros entities Hes H.
  - cbn in H. now injection H as <-.
  - cbn [parse_entities] in H. apply bind_Ok in H as (entities' & He & H).
    eapply IH; [|exact H]. eapply parse_entity_records; eassumption.
Qed.

Lemma parse_response_records (response : gmap string value) (out : Entities) :
  _parse_extraction_response response text = Ok out ->
  all_records P out.
Proof.
  unfold _parse_extraction_response. destruct (response !! "entities") as [v|].
  - intros H. apply bind_Ok in H as (es & _ & H).
    eapply parse_entities_records; [apply all_records_none | exact H].
  - intros H. injection H as <-. apply all_records_none.
Qed.

End RecordInvariant.

(** ** The keyword matcher never raises *)

Section DemoInvariant.

Variable P : record -> Prop.
Hypothesis built :
  forall keyword code_system confidence context,
    confidence ∈ demo_confidences ->
    P (demo_record keyword code_system confidence context).

Lemma demo_scan_records (text text_lower code_system : string)
  (confidence : float) (keywords : list string) (found : list record) :
  confidence ∈ demo_confidences ->
  Forall P found ->
  exists out,
    demo_scan text text_lower code_system confidence found keywords = Ok out
    /\ Forall P out.
Proof.
  intros Hc. revert found.
  induction keywords as [|keyword rest IH]; intros found Hf; cbn [demo_scan].
  - eauto.
  - destruct (Str.contains keyword text_lower); [|apply IH, Hf].
    rewrite extract_context_int. rsimpl.
    apply IH, Forall_app. split; [exact Hf|].
    apply Forall_singleton. now apply built.
Qed.

Lemma demo_records (text : string) :
  exists out, _demo_extract_entities text = Ok out /\ all_records P out.
Proof.
  unfold _demo_extract_entities.
  destruct (demo_scan_records text (Str.lower text) "ICD-10-CM" 0.85%float
              problem_keywords []) as (ps & -> & Hps);
    [unfold demo_confidences; set_solver | constructor |].
  destruct (demo_scan_records text (Str.lower text) "CPT" 0.80%float
              procedure_keywords []) as (cs & -> & Hcs);
    [unfold demo_confidences; set_solver | constructor |].
  destruct (demo_scan_records text (Str.lower text) "RxNorm" 0.90%float
              medication_keywords []) as (ms & -> & Hms);
    [unfold demo_confidences; set_solver | constructor |].
  destruct (demo_scan_records text (Str.lower text) "LOINC" 0.75%float
              lab_keywords []) as (ls & -> & Hls);
    [unfold demo_confidences; set_solver | constructor |].
  rsimpl. eexists; split; [reflexivity|].
  intros [] r Hin; cbn in Hin; revert r Hin;
    apply (proj1 (Forall_forall _ _)); assumption.
Qed.

End DemoInvariant.

(** ** The context window: claims *)

(** When [end] is not negative the slice holds the characters at the
    positions from [start] up to [end]. *)
Lemma slice_positions (text : string) (start stop : Z) :
  0 <= start -> 0 <= stop ->
  Str.slice text start stop
  = Str.take (Z.to_nat (Z.min stop (Str.len text)) - Z.to_nat start)
      (Str.drop (Z.to_nat start) text).
Proof.
  intros Hs He. unfold Str.slice, Str.slice_bound.
  assert (0 <= Str.len text) by (unfold Str.len; lia).
  destruct (Z.ltb_spec start 0), (Z.ltb_spec stop 0); try lia.
  destruct (Z.ltb_spec (Z.min start (Str.len text)) (Z.min stop (Str.len text))).
  - replace (Z.min start (Str.len text)) with start by lia.
    f_equal. lia.
  - replace (Z.to_nat (Z.min stop (Str.len text)) - Z.to_nat start)%nat with O.
    + reflexivity.
    + destruct (Z.le_gt_cases start (Str.len text)); lia.
Qed.

(** C7, as the code has it.  The window of radius 3 around the one
    character at offset 10 of "0123456789abcdefghij" is "...789abcd...":
    three characters before the span, the span, three characters after it,
    and an ellipsis on both sides. *)
Theorem extract_context_radius_3 :
  _extract_context "0123456789abcdefghij" (NInt 10) (NInt 1) (NInt 3)
  = Ok "...789abcd...".
Proof. reflexivity. Qed.

(** C7, as the specification words it, fails: the result is not "...789a...". *)
Lemma extract_context_radius_3_is_not_789a :
  _extract_context "0123456789abcdefghij" (NInt 10) (NInt 1) (NInt 3)
  <> Ok "...789a...".
Proof. discriminate. Qed.

(** C10. For every text and all integers [offset], [length] and
    [windowRadius], the context window is an optional ellipsis, a core, and
    an optional ellipsis, where the core occurs in the text as a run of
    consecutive characters and has no white space at either end. *)
Theorem extract_context_is_literal_text
  (text : string) (offset length windowRadius : Z) :
  exists before core after,
    _extract_context text (NInt offset) (NInt length) (NInt windowRadius)
    = Ok (before +:+ core +:+ after)
    /\ (before = "" \/ before = "...")
    /\ (after = "" \/ after = "...")
    /\ substring_of core text
    /\ trimmed core = true.
Proof.
  rewrite extract_context_int. unfold extractContext_spec.
  destruct text as [|c text].
  - exists "", "", "". repeat split; auto. apply substring_of_refl.
  - set (start := Z.max 0 _). set (end_ := Z.min _ _).
    exists (if 0 <? start then ellipsis else ""),
           (Str.strip (Str.slice (String c text) start end_)),
           (if end_ <? Str.len (String c text) then ellipsis else "").
    split; [reflexivity|].
    split; [destruct (0 <? start); auto|].
    split; [destruct (end_ <? _); auto|].
    split; [|apply strip_trimmed].
    eapply substring_of_trans; [apply strip_substring | apply slice_substring].
Qed.

(** ** The keyword matcher: claims *)

(** C5. On "Patient has hypertension and takes aspirin daily." the keyword
    matcher returns a problems list with a record of text "Hypertension"
    and confidence 0.85, a medications list with a record of text "Aspirin"
    and confidence 0.90, and empty procedures and labs lists. *)
Theorem demo_on_sample_text :
  exists out problem medication,
    _demo_extract_entities "Patient has hypertension and takes aspirin daily."
    = Ok out
    /\ problem ∈ problems out
    /\ problem !! "text" = Some (VStr "Hypertension")
    /\ problem !! "confidence" = Some (VFloat 0.85)
    /\ medication ∈ medications out
    /\ medication !! "text" = Some (VStr "Aspirin")
    /\ medication !! "confidence" = Some (VFloat 0.90)
    /\ procedures out = []
    /\ labs out = [].
Proof.
  eexists _, _, _. split; [reflexivity|].
  repeat split; first [ reflexivity | apply list_elem_of_here ].
Qed.

(** ** The parser: what a record holds *)






Lemma built_assertion (text : string) (entity : gmap string value)
  (label : string) (r : record) :
  entity_data text entity = Ok (Some (label, r)) -> assertion_is_present r.
Proof.
  intros H. apply entity_data_Some in H
    as (lowered & length & off & context & imo_code & imo_description
        & confidence & Ha & _ & _ & _ & _ & _ & _ & _ & ->).
  destruct (Value.get entity "assertion" (VStr "")) as [| | | | s | |] eqn:E;
    try discriminate.
  exists s. split; [reflexivity|]. now injection Ha.
Qed.

Lemma built_fields (text : string) (entity : gmap string value)
  (label : string) (r : record) :
  entity_data text entity = Ok (Some (label, r)) -> has_fields parsed_fields r.
Proof.
  intros H. apply entity_data_Some in H
    as (lowered & length & off & context & imo_code & imo_description
        & confidence & _ & _ & _ & _ & _ & _ & _ & _ & ->).
  unfold has_fields. rewrite dom_list_to_map_L. reflexivity.
Qed.



(** ** The parser returns on well-formed spans *)

Lemma str_or_absent_get (entity : gmap string value) (k : string) :
  str_or_absent entity k = true ->
  exists s, Value.get entity k (VStr "") = VStr s.
Proof.
  unfold str_or_absent, Value.get.
  destruct (entity !! k) as [[]|]; try discriminate; cbn; eauto.
Qed.

Lemma int_or_absent_get (entity : gmap string value) (k : string) :
  int_or_absent entity k = true ->
  exists z, Value.get entity k (VInt 0) = VInt z.
Proof.
  unfold int_or_absent, Value.get.
  destruct (entity !! k) as [[]|]; try discriminate; cbn; eauto.
Qed.

Lemma extract_codes_well_formed (entity : gmap string value) :
  codemaps_well_formed entity = true ->
  exists codes, extract_codes entity = Ok codes.
Proof.
  unfold codemaps_well_formed, extract_codes.
  destruct (entity !! "codemaps") as [[| | | | | |d]|]; try discriminate;
    [|eauto].
  cbn [Value.contains]. rsimpl.
  destruct (d !! "imo") as [imo|] eqn:Hi.
  - rewrite bool_decide_eq_true_2 by eauto. cbn [Value.item]. rewrite Hi.
    destruct imo as [| | | | | |imo_data]; try discriminate.
    cbn [Value.as_dict]. unfold Value.get at 1.
    destruct (imo_data !! "confidence") as [[]|]; try discriminate; cbn; eauto.
  - rewrite bool_decide_eq_false_2 by (intros [? ?]; discriminate). eauto.
Qed.

Lemma parse_entity_well_formed (text : string) (entities : Entities) (e : value) :
  well_formed_span e = true ->
  is_ok (parse_entity text entities e) = true.
Proof.
  destruct e as [| | | | | |entity]; try discriminate. cbn [well_formed_span].
  rewrite !andb_true_iff. intros [[[[[Ha Ht] Hs] Hb] He] Hc].
  apply str_or_absent_get in Ha as [a Ha], Ht as [t Ht], Hs as [l Hs].
  apply int_or_absent_get in Hb as [b Hb], He as [z He].
  apply extract_codes_well_formed in Hc as [[[c d] f] Hc].
  unfold parse_entity, entity_data. cbn [Value.as_dict]. rsimpl.
  rewrite Ha, Ht, Hs, Hb, He, Hc. cbn [Value.lower Value.sub Value.as_num].
  destruct (negb _); [reflexivity|].
  destruct (existsb _ _); [reflexivity|].
  change (Value.sub (VInt z) (VInt b)) with (Ok (NInt (z - b))).
  cbn iota. rewrite extract_context_int. reflexivity.
Qed.

Lemma parse_entities_well_formed (text : string) (es : list value)
  (entities : Entities) :
  forallb well_formed_span es = true ->
  is_ok (parse_entities text entities es) = true.
Proof.
  revert entities; induction es as [|e es IH]; intros entities H; [reflexivity|].
  cbn [forallb] in H. apply andb_true_iff in H as [He Hes].
  cbn [parse_entities]. rsimpl.
  pose proof (parse_entity_well_formed text entities e He) as Hok.
  destruct (parse_entity text entities e); [now apply IH | discriminate].
Qed.

(** The parser raises nothing on a list of well-formed spans. *)
Lemma parser_returns_on_well_formed_spans (response : gmap string value)
  (text : string) (es : list value) :
  response !! "entities" = Some (VList es) ->
  forallb well_formed_span es = true ->
  is_ok (_parse_extraction_response response text) = true.
Proof.
  intros Hr Hes. unfold _parse_extraction_response. rewrite Hr.
  cbn [Value.iterate]. rsimpl. now apply parse_entities_well_formed.
Qed.

(** ** The parser: claims *)

(** C8. A span whose assertion, lower-cased, is not exactly "present" is
    dropped: the parser returns what it returns without that span, and in
    what it returns every record carries an assertion that reads
    "present". *)
Theorem span_not_present_is_dropped
  (response : gmap string value) (text : string) (before after : list value)
  (entity : gmap string value) (assertion : string) :
  Value.lower (Value.get entity "assertion" (VStr "")) = Ok assertion ->
  String.eqb assertion "present" = false ->
  _parse_extraction_response
    (<["entities" := VList (before ++ VDict entity :: after)]> response) text
  = _parse_extraction_response
      (<["entities" := VList (before ++ after)]> response) text
  /\ forall out,
       _parse_extraction_response
         (<["entities" := VList (before ++ VDict entity :: after)]> response) text
       = Ok out ->
       all_records assertion_is_present out.
Proof.
  intros Ha E. split.
  - unfold _parse_extraction_response. rewrite !lookup_insert_eq.
    cbn [Value.iterate]. rsimpl. eapply parse_entities_skip; eassumption.
  - intros out. apply parse_response_records. apply built_assertion.
Qed.

Lemma span_not_present_is_dropped_witness :
  _parse_extraction_response
    (<["entities" :=
         VList ([] ++ VDict (list_to_map (sample_span 12 24 "Absent" (VFloat 0.9)))
                   :: [dict (sample_span 12 24 "Present" (VFloat 0.9))])]> ∅)
    sample_text
  = _parse_extraction_response
      (<["entities" :=
           VList ([] ++ [dict (sample_span 12 24 "Present" (VFloat 0.9))])]> ∅)
      sample_text.
Proof.
  refine (proj1 (span_not_present_is_dropped ∅ sample_text [] _ _ "absent" _ _));
    reflexivity.
Defined.


(** C3, as the code has it.  For a span that passes the filters, with
    integer offsets, the parser computes [length = end - begin] and hands
    it to the context window as it is, also when it is negative: the
    record's length is [end - begin] and its context is the window of
    radius 200 for that offset and that length. *)
Theorem span_length_is_passed_unchanged
  (text : string) (entity : gmap string value) (label : string) (r : record)
  (b e : Z) :
  Value.get entity "begin" (VInt 0) = VInt b ->
  Value.get entity "end" (VInt 0) = VInt e ->
  entity_data text entity = Ok (Some (label, r)) ->
  exists context,
    _extract_context text (NInt b) (NInt (e - b)) (NInt 200) = Ok context
    /\ r !! "context" = Some (VStr context)
    /\ r !! "length" = Some (VInt (e - b))
    /\ r !! "offset" = Some (VInt b).
Proof.
  intros Hb He H. apply entity_data_Some in H
    as (lowered & length & off & context & imo_code & imo_description
        & confidence & _ & _ & _ & _ & Hlen & Hoff & Hctx & _ & ->).
  rewrite Hb in *. rewrite He in *.
  cbn in Hlen, Hoff. injection Hlen as <-. injection Hoff as <-.
  exists context. repeat split; [exact Hctx | reflexivity..].
Qed.

Lemma span_length_is_passed_unchanged_witness :
  exists context,
    _extract_context sample_text (NInt 12) (NInt (-180 - 12)) (NInt 200)
    = Ok context
    /\ sample_record (-192) "Patient has hyperten..." (VFloat 0.9) 0.9 !! "context"
       = Some (VStr context)
    /\ sample_record (-192) "Patient has hyperten..." (VFloat 0.9) 0.9 !! "length"
       = Some (VInt (-180 - 12))
    /\ sample_record (-192) "Patient has hyperten..." (VFloat 0.9) 0.9 !! "offset"
       = Some (VInt 12).
Proof.
  apply (span_length_is_passed_unchanged sample_text
           (list_to_map (sample_span 12 (-180) "present" (VFloat 0.9)))
           "problem" (sample_record (-192) "Patient has hyperten..." (VFloat 0.9) 0.9) 12 (-180));
    reflexivity.
Defined.

(** C3, as the specification words it, fails: with offsets 12 and -180 in the
    sample text the window stops at character 20, while the window of a
    span of length zero at offset 12 is the whole text. *)
Lemma negative_length_is_not_zero_length :
  exists r,
    _parse_extraction_response
      (response_of (sample_span 12 (-180) "present" (VFloat 0.9))) sample_text
    = Ok (one_problem r)
    /\ r !! "length" = Some (VInt (-192))
    /\ r !! "context" = Some (VStr "Patient has hyperten...")
    /\ _extract_context sample_text (NInt 12) (NInt 0) (NInt 200)
       = Ok "Patient has hypertension and takes aspirin daily."
    /\ "Patient has hyperten..." <> "Patient has hypertension and takes aspirin daily.".
Proof.
  exists (sample_record (-192) "Patient has hyperten..." (VFloat 0.9) 0.9).
  repeat split; try reflexivity. discriminate.
Qed.


Lemma demo_has_fields (keyword code_system : string) (confidence : float)
  (context : string) :
  confidence ∈ demo_confidences ->
  has_fields demo_fields (demo_record keyword code_system confidence context).
Proof.
  intros _. unfold has_fields, demo_record. rewrite dom_list_to_map_L.
  reflexivity.
Qed.







(** C4, as the code has it.  Every record of the keyword matcher has
    exactly the six keys text, code, code_system, description, confidence
    and context; every record of the parser has exactly those and offset,
    length, entity_id, semantic, assertion and codemaps. *)
Theorem record_keys_of_both_paths
  (response : gmap string value) (text : string) :
  (exists out,
     _demo_extract_entities text = Ok out
     /\ all_records (has_fields demo_fields) out)
  /\ (forall out,
        _parse_extraction_response response text = Ok out ->
        all_records (has_fields parsed_fields) out)
  /\ forallb (fun k => existsb (String.eqb k) parsed_fields) demo_fields = true
  /\ List.filter (fun k => negb (existsb (String.eqb k) demo_fields)) parsed_fields
     = [ "offset"; "length"; "entity_id"; "semantic"; "assertion"; "codemaps" ].
Proof.
  split; [|split; [|split; reflexivity]].
  - apply demo_records. apply demo_has_fields.
  - intros out. apply parse_response_records. apply built_fields.
Qed.

Lemma record_keys_of_both_paths_witness :
  has_fields parsed_fields (sample_record 12 sample_text (VFloat 0.9) 0.9).
Proof.
  apply (proj1 (proj2 (record_keys_of_both_paths
                         (response_of (sample_span 12 24 "present" (VFloat 0.9)))
                         sample_text))
           (one_problem (sample_record 12 sample_text (VFloat 0.9) 0.9))
           eq_refl Problems).
  apply list_elem_of_here.
Defined.

(** C4, as the specification words it, fails: the record that the keyword matcher
    returns for "hypertension" in the sample text has none of the keys
    offset, length, entity_id, semantic, assertion and codemaps. *)
Lemma demo_record_lacks_span_keys :
  exists out r,
    _demo_extract_entities sample_text = Ok out
    /\ problems out = [r]
    /\ r !! "text" = Some (VStr "Hypertension")
    /\ r !! "offset" = None /\ r !! "length" = None
    /\ r !! "entity_id" = None /\ r !! "semantic" = None
    /\ r !! "assertion" = None /\ r !! "codemaps" = None.
Proof. eexists _, _. repeat split; reflexivity. Qed.

(** ** The token functions *)

Lemma set_token_same (self : NLPProcessor) :
  set_token self (access_token self) (token_expiry self) = self.
Proof. now destruct self. Qed.

Lemma set_workflow_token_same (self : NLPProcessor) :
  set_workflow_token self (workflow_access_token self)
    (workflow_token_expiry self) = self.
Proof. now destruct self. Qed.

(** The expiry that a token answer yields is a float. *)
Lemma expiry_is_float (now : float) (n e : num) :
  (t ← Num.add (NFloat now) n; Num.sub t (NInt 60)) = Ok e ->
  exists f, e = NFloat f.
Proof.
  intros H. apply bind_Ok in H as (t & Ht & H).
  assert (exists g, t = NFloat g) as [g ->].
  { cbn in Ht. rsimpl. destruct (Num.to_float n); [|discriminate].
    injection Ht as <-. eauto. }
  cbn in H. rsimpl. destruct (Float.of_Z 60); [|discriminate].
  injection H as <-. eauto.
Qed.

(** What [store_token] returns, if not [None], is the token it stores; and
    it stores a new expiry only together with the token it returns. *)
Lemma store_token_returns_stored (token expiry : value) (now : float)
  (outcome : http_outcome) (token' expiry' returned : value) :
  store_token token expiry now outcome = (token', expiry', returned) ->
  (returned = VNone /\ expiry' = expiry
   \/ returned = token' /\ exists f, expiry' = VFloat f).
Proof.
  unfold store_token. intros H.
  destruct outcome as [|status_code body];
    [injection H as <- <- <-; now left|].
  destruct (status_code =? 200); [|injection H as <- <- <-; now left].
  destruct body as [result|]; [|injection H as <- <- <-; now left].
  destruct (Value.as_dict result) as [d|]; [|injection H as <- <- <-; now left].
  destruct (_ ≫= _) as [e|] eqn:He; injection H as <- <- <-; [|now left].
  right. split; [reflexivity|].
  apply bind_Ok in He as (n & _ & He).
  apply expiry_is_float in He as [f ->]. now exists f.
Qed.

Lemma token_is_valid_total (token expiry : value) (now : float) :
  expiry_ok expiry -> exists b, token_is_valid token expiry now = Ok b.
Proof.
  unfold token_is_valid. intros [->|[f ->]]; cbn;
    destruct (truthy token); try destruct (negb _); eauto.
Qed.

Lemma store_token_ok (token expiry : value) (now : float)
  (d : gmap string value) (token' : value) (expires_in : Z) (seconds : float) :
  Value.get d "access_token" VNone = token' ->
  Value.get d "expires_in" (VInt 3600) = VInt expires_in ->
  Float.of_Z expires_in = Ok seconds ->
  store_token token expiry now (HttpResponse 200 (Some (VDict d)))
  = (token', VFloat (now + seconds - 60)%float, token').
Proof.
  intros Hg He Hs. unfold store_token.
  cbn [Z.eqb Pos.eqb Value.as_dict]. cbn zeta.
  rewrite Hg, He. cbn [Value.as_num]. rsimpl. cbn [Num.add Num.to_float].
  rewrite Hs. reflexivity.
Qed.

(** [_get_access_token] from a processor with a proper expiry. *)
Lemma get_access_token_total
  (self : NLPProcessor) (now later : float) (post : request -> http_outcome) :
  expiry_ok (token_expiry self) ->
  exists self' requests returned,
    _get_access_token self now later post = Ok (self', requests, returned)
    /\ expiry_ok (token_expiry self')
    /\ (returned = VNone \/ returned = access_token self')
    /\ (requests = []
        \/ requests = [token_request (auth_url self) (client_id self)
                         (client_secret self)])
    /\ self' = set_token self (access_token self') (token_expiry self').
Proof.
  intros Hok. unfold _get_access_token.
  destruct (token_is_valid_total (access_token self) (token_expiry self) now Hok)
    as [valid ->]. rsimpl. destruct valid.
  - exists self, [], (access_token self).
    rewrite set_token_same. auto 6.
  - destruct (store_token _ _ later _) as [[token expiry] returned] eqn:Hs.
    eexists _, _, _. split; [reflexivity|]. cbn.
    apply store_token_returns_stored in Hs as [[-> ->]|[-> [f ->]]].
    + repeat split; auto.
    + repeat split; auto. right. eauto.
Qed.

(** X1. From a processor whose stored expiry is [None] or a float,
    [_get_access_token] does not raise and keeps the expiry so; it makes
    at most one request; what it returns is [None] or the token it has
    stored; and it changes nothing but the token and its expiry. *)
Theorem get_access_token_keeps_processor
  (self : NLPProcessor) (now later : float) (post : request -> http_outcome) :
  expiry_ok (token_expiry self) ->
  exists self' requests returned,
    _get_access_token self now later post = Ok (self', requests, returned)
    /\ expiry_ok (token_expiry self')
    /\ (returned = VNone \/ returned = access_token self')
    /\ (requests = []
        \/ requests = [token_request (auth_url self) (client_id self)
                         (client_secret self)])
    /\ self' = set_token self (access_token self') (token_expiry self').
Proof. apply get_access_token_total. Qed.

Lemma get_access_token_keeps_processor_witness :
  exists self' requests returned,
    _get_access_token sample_processor 1000 1000 (sample_service VNone)
    = Ok (self', requests, returned)
    /\ expiry_ok (token_expiry self')
    /\ (returned = VNone \/ returned = access_token self')
    /\ (requests = []
        \/ requests = [token_request (auth_url sample_processor)
                         (client_id sample_processor)
                         (client_secret sample_processor)])
    /\ self' = set_token sample_processor (access_token self') (token_expiry self').
Proof.
  apply (get_access_token_keeps_processor sample_processor 1000 1000
           (sample_service VNone)).
  left. reflexivity.
Defined.

(** X2. A token obtained is used again until its expiry.  When the token
    request is answered with status 200, a token that is not empty and an
    integer [expires_in] within the range of a float, [_get_access_token]
    stores and returns that token; and when the expiry stored,
    [time + expires_in - 60], is not zero, every later call while the
    clock is below it returns the token without a request, whatever the
    service would answer. *)
Theorem token_is_reused_until_expiry
  (self : NLPProcessor) (now later now2 : float)
  (post : request -> http_outcome) (d : gmap string value) (token : value)
  (expires_in : Z) (seconds : float) :
  token_is_valid (access_token self) (token_expiry self) now = Ok false ->
  post (token_request (auth_url self) (client_id self) (client_secret self))
  = HttpResponse 200 (Some (VDict d)) ->
  d !! "access_token" = Some token ->
  truthy token = true ->
  Value.get d "expires_in" (VInt 3600) = VInt expires_in ->
  Float.of_Z expires_in = Ok seconds ->
  PrimFloat.is_zero (later + seconds - 60)%float = false ->
  PrimFloat.ltb now2 (later + seconds - 60)%float = true ->
  exists self',
    _get_access_token self now later post
    = Ok (self',
          [token_request (auth_url self) (client_id self) (client_secret self)],
          token)
    /\ access_token self' = token
    /\ forall later2 post2,
         _get_access_token self' now2 later2 post2 = Ok (self', [], token).
Proof.
  intros Hv Hp Ht Htr He Hs Hz Hlt.
  unfold _get_access_token. rewrite Hv. rsimpl. rewrite Hp.
  assert (Hg : Value.get d "access_token" VNone = token)
    by (unfold Value.get; now rewrite Ht).
  rewrite (store_token_ok _ _ _ _ _ _ _ Hg He Hs).
  eexists. split; [reflexivity|]. split; [reflexivity|].
  intros later2 post2. cbn [access_token token_expiry set_token].
  unfold token_is_valid. rewrite Htr. cbn [truthy]. rewrite Hz.
  cbn [negb Value.as_num]. rsimpl. cbn [Num.lt]. rewrite Hlt. reflexivity.
Qed.

Lemma token_is_reused_until_expiry_witness :
  exists self',
    _get_access_token sample_processor 1000 1000 (sample_service VNone)
    = Ok (self',
          [token_request (auth_url sample_processor) (client_id sample_processor)
             (client_secret sample_processor)],
          VStr "tok")
    /\ access_token self' = VStr "tok"
    /\ forall later2 post2,
         _get_access_token self' 2000 later2 post2 = Ok (self', [], VStr "tok").
Proof.
  apply (token_is_reused_until_expiry sample_processor 1000 1000 2000
           (sample_service VNone) sample_token_body (VStr "tok") 3600 3600);
    reflexivity.
Defined.

(** X3. A token request that yields no token (it raised, the status is
    not 200, or the body is not a JSON object) makes [_get_access_token]
    return [None] and leaves the processor as it was. *)
Theorem failed_token_request_changes_nothing
  (self : NLPProcessor) (now later : float) (post : request -> http_outcome) :
  token_is_valid (access_token self) (token_expiry self) now = Ok false ->
  yields_no_token
    (post (token_request (auth_url self) (client_id self) (client_secret self)))
  = true ->
  _get_access_token self now later post
  = Ok (self,
        [token_request (auth_url self) (client_id self) (client_secret self)],
        VNone).
Proof.
  intros Hv Hn. unfold _get_access_token. rewrite Hv. rsimpl.
  destruct (post _) as [|status_code body]; cbn in *.
  - now rewrite set_token_same.
  - destruct (status_code =? 200); cbn in *.
    + destruct body as [[]|]; try discriminate; cbn; now rewrite set_token_same.
    + now rewrite set_token_same.
Qed.

Lemma failed_token_request_changes_nothing_witness :
  _get_access_token sample_processor 1000 1000 no_service
  = Ok (sample_processor,
        [token_request (auth_url sample_processor) (client_id sample_processor)
           (client_secret sample_processor)],
        VNone).
Proof.
  apply (failed_token_request_changes_nothing sample_processor 1000 1000
           no_service); reflexivity.
Defined.

(** X4. A token answer with status 200 whose [expires_in] is not a number
    replaces the stored token, keeps the stored expiry, and makes
    [_get_access_token] return [None]. *)
Theorem token_without_expiry_is_stored_not_returned
  (self : NLPProcessor) (now later : float) (post : request -> http_outcome)
  (d : gmap string value) (x : exn) :
  token_is_valid (access_token self) (token_expiry self) now = Ok false ->
  post (token_request (auth_url self) (client_id self) (client_secret self))
  = HttpResponse 200 (Some (VDict d)) ->
  Value.as_num (Value.get d "expires_in" (VInt 3600)) = Raise x ->
  _get_access_token self now later post
  = Ok (set_token self (Value.get d "access_token" VNone) (token_expiry self),
        [token_request (auth_url self) (client_id self) (client_secret self)],
        VNone).
Proof.
  intros Hv Hp He. unfold _get_access_token. rewrite Hv. rsimpl. rewrite Hp.
  unfold store_token. cbn [Z.eqb Pos.eqb Value.as_dict]. rewrite He.
  reflexivity.
Qed.

Lemma token_without_expiry_is_stored_not_returned_witness :
  _get_access_token sample_processor 1000 1000
    (fun _ => HttpResponse 200
                (Some (dict [ ("access_token", VStr "tok");
                              ("expires_in", VStr "soon") ])))
  = Ok (set_token sample_processor (VStr "tok") VNone,
        [token_request (auth_url sample_processor) (client_id sample_processor)
           (client_secret sample_processor)],
        VNone).
Proof.
  exact (token_without_expiry_is_stored_not_returned sample_processor 1000 1000
           (fun _ => HttpResponse 200
                       (Some (dict [ ("access_token", VStr "tok");
                                     ("expires_in", VStr "soon") ])))
           (list_to_map [ ("access_token", VStr "tok");
                          ("expires_in", VStr "soon") ])
           TypeError eq_refl eq_refl eq_refl).
Defined.

(** ** The entry point *)

Lemma demo_never_raises (text : string) :
  exists demo, _demo_extract_entities text = Ok demo.
Proof.
  destruct (demo_records (fun _ => True) (fun _ _ _ _ _ => I) text)
    as (demo & H & _). eauto.
Qed.

(** What [_get_access_token] returns and sends, when it returns. *)
Lemma get_access_token_Ok (self self' : NLPProcessor) (now later : float)
  (post : request -> http_outcome) (requests : list request) (returned : value) :
  _get_access_token self now later post = Ok (self', requests, returned) ->
  (returned = VNone \/ returned = access_token self')
  /\ (requests = []
      \/ requests = [token_request (auth_url self) (client_id self)
                       (client_secret self)])
  /\ entity_extraction_url self' = entity_extraction_url self.
Proof.
  unfold _get_access_token. intros H.
  apply bind_Ok in H as (valid & _ & H). destruct valid.
  - injection H as <- <- <-. auto.
  - destruct (store_token _ _ later _) as [[token expiry] r] eqn:Hs.
    injection H as <- <- <-. cbn.
    apply store_token_returns_stored in Hs as [[-> _]|[-> _]]; auto.
Qed.

(** X5. [extract_entities] never raises.  What it returns is the four
    empty lists for an empty text, or what the keyword matcher returns for
    the text, or what the parser returns for the body of an answer with
    status 200 to a request it has made. *)
Theorem extract_entities_never_raises
  (self : NLPProcessor) (text : string) (now later : float)
  (post : request -> http_outcome) :
  exists self' requests entities,
    extract_entities self text now later post = Ok (self', requests, entities)
    /\ (text = "" /\ entities = no_entities
        \/ _demo_extract_entities text = Ok entities
        \/ exists rq body,
             rq ∈ requests
             /\ post rq = HttpResponse 200 (Some body)
             /\ parse_body body text = Ok entities).
Proof.
  destruct (demo_never_raises text) as [demo Hd].
  unfold extract_entities. destruct text as [|c text]; cbn [Str.is_empty].
  { eexists _, _, _. split; [reflexivity|]. auto. }
  rewrite Hd. rsimpl.
  destruct (negb _ || negb _).
  { eexists _, _, _. split; [reflexivity|]. auto. }
  destruct (_get_access_token self now later post) as [[[self' requests] token]|].
  2: { eexists _, _, _. split; [reflexivity|]. auto. }
  destruct (negb (truthy token)).
  { eexists _, _, _. split; [reflexivity|]. auto. }
  destruct (post _) as [|status_code body] eqn:Hp.
  { eexists _, _, _. split; [reflexivity|]. auto. }
  destruct (Z.eqb_spec status_code 200) as [->|_].
  2: { eexists _, _, _. split; [reflexivity|]. auto. }
  destruct body as [result|].
  2: { eexists _, _, _. split; [reflexivity|]. auto. }
  destruct (parse_body result (String c text)) as [entities|] eqn:Hb.
  2: { eexists _, _, _. split; [reflexivity|]. auto. }
  eexists _, _, _. split; [reflexivity|]. right. right.
  eexists _, _. split; [|split; [exact Hp | exact Hb]].
  apply elem_of_app. right. apply list_elem_of_here.
Qed.

(** X6. When the vendor answers with status 200 and a body on which the
    parser raises, [extract_entities] returns what the keyword matcher
    returns for the text. *)
Theorem parser_error_falls_back
  (self self' : NLPProcessor) (text : string) (now later : float)
  (post : request -> http_outcome) (requests : list request)
  (token body : value) (x : exn) :
  Str.is_empty text = false ->
  truthy (client_id self) = true ->
  truthy (client_secret self) = true ->
  _get_access_token self now later post = Ok (self', requests, token) ->
  truthy token = true ->
  post (extraction_request self' token text) = HttpResponse 200 (Some body) ->
  parse_body body text = Raise x ->
  exists demo,
    _demo_extract_entities text = Ok demo
    /\ extract_entities self text now later post
       = Ok (self', (requests ++ [extraction_request self' token text])%list, demo).
Proof.
  intros Ht Hi Hs Hg Htok Hp Hb.
  destruct (demo_never_raises text) as [demo Hd]. exists demo.
  split; [exact Hd|].
  unfold extract_entities. rewrite Ht, Hi, Hs, Hg, Htok. cbn [negb orb].
  rewrite Hp, Hb, Hd. reflexivity.
Qed.

Lemma parser_error_falls_back_witness :
  exists demo,
    _demo_extract_entities sample_text = Ok demo
    /\ extract_entities sample_processor sample_text 1000 1000
         (sample_service
            (VDict (response_of (sample_span 12 24 "present" (VStr "high")))))
       = Ok (set_token sample_processor (VStr "tok") (VFloat 4540),
             ([token_request (auth_url sample_processor)
                 (client_id sample_processor) (client_secret sample_processor)]
              ++ [extraction_request
                    (set_token sample_processor (VStr "tok") (VFloat 4540))
                    (VStr "tok") sample_text])%list,
             demo).
Proof.
  exact (parser_error_falls_back sample_processor
           (set_token sample_processor (VStr "tok") (VFloat 4540))
           sample_text 1000 1000
           (sample_service
              (VDict (response_of (sample_span 12 24 "present" (VStr "high")))))
           [token_request (auth_url sample_processor)
              (client_id sample_processor) (client_secret sample_processor)]
           (VStr "tok")
           (VDict (response_of (sample_span 12 24 "present" (VStr "high"))))
           ValueError eq_refl eq_refl eq_refl eq_refl eq_refl eq_refl eq_refl).
Defined.

Lemma demo_empty_text : _demo_extract_entities "" = Ok no_entities.
Proof. reflexivity. Qed.

(** X7. A processor built from a configuration in which the client id or
    the client secret is missing, [None] or empty sends nothing:
    [extract_entities] returns what the keyword matcher returns, and the
    processor stays as built. *)
Theorem without_credentials_nothing_is_sent
  (config : gmap string value) (text : string) (now later : float)
  (post : request -> http_outcome) :
  truthy (Value.get config "imo_client_id" VNone)
  && truthy (Value.get config "imo_client_secret" VNone) = false ->
  exists demo,
    _demo_extract_entities text = Ok demo
    /\ extract_entities (__init__ config) text now later post
       = Ok (__init__ config, [], demo).
Proof.
  intros Hc. destruct (demo_never_raises text) as [demo Hd]. exists demo.
  split; [exact Hd|]. unfold extract_entities.
  destruct text as [|c text]; cbn [Str.is_empty].
  { rewrite demo_empty_text in Hd. injection Hd as <-. reflexivity. }
  assert (Hn : negb (truthy (client_id (__init__ config)))
               || negb (truthy (client_secret (__init__ config))) = true).
  { clear Hd. unfold __init__, Value.get in *.
    destruct (config !! "imo_client_id") as [cid|],
             (config !! "imo_client_secret") as [secret|];
      cbn [default from_option id client_id client_secret truthy negb orb andb] in *;
      try reflexivity.
    destruct (truthy cid), (truthy secret); cbn in *; congruence. }
  rewrite Hn, Hd. reflexivity.
Qed.

Lemma without_credentials_nothing_is_sent_witness :
  exists demo,
    _demo_extract_entities sample_text = Ok demo
    /\ extract_entities
         (__init__ (list_to_map [ ("imo_client_id", VStr "id");
                                  ("imo_diagnostic_workflow_client_id", VStr "w") ]))
         sample_text 1000 1000 (sample_service VNone)
       = Ok (__init__ (list_to_map [ ("imo_client_id", VStr "id");
                                     ("imo_diagnostic_workflow_client_id", VStr "w") ]),
             [], demo).
Proof.
  apply (without_credentials_nothing_is_sent
           (list_to_map [ ("imo_client_id", VStr "id");
                          ("imo_diagnostic_workflow_client_id", VStr "w") ])
           sample_text 1000 1000 (sample_service VNone)).
  reflexivity.
Defined.

(** X8. What [extract_entities] sends: at most a token request and then
    one extraction request.  The extraction request carries the text and
    nothing else, to the configured URL, with a token that is not empty
    and is the token the processor holds afterwards. *)
Theorem extract_entities_requests
  (self : NLPProcessor) (text : string) (now later : float)
  (post : request -> http_outcome) :
  exists self' requests entities,
    extract_entities self text now later post = Ok (self', requests, entities)
    /\ exists tokens extractions,
         requests = (tokens ++ extractions)%list
         /\ (tokens = []
             \/ tokens = [token_request (auth_url self) (client_id self)
                            (client_secret self)])
         /\ (extractions = []
             \/ truthy (access_token self') = true
                /\ extractions
                   = [ {| url := entity_extraction_url self;
                          authorization := Some (access_token self');
                          json := {[ "text" := VStr text ]} |} ]).
Proof.
  destruct (demo_never_raises text) as [demo Hd].
  unfold extract_entities. destruct text as [|c text]; cbn [Str.is_empty].
  { eexists _, _, _. split; [reflexivity|]. exists [], []. auto. }
  rewrite Hd. rsimpl.
  destruct (negb _ || negb _).
  { eexists _, _, _. split; [reflexivity|]. exists [], []. auto. }
  destruct (_get_access_token self now later post)
    as [[[self' requests] token]|] eqn:Hg.
  2: { eexists _, _, _. split; [reflexivity|]. exists [], []. auto. }
  apply get_access_token_Ok in Hg as (Hret & Hreq & Hurl).
  destruct (truthy token) eqn:Htok; cbn [negb].
  2: { eexists _, _, _. split; [reflexivity|]. exists requests, [].
       rewrite app_nil_r. auto. }
  assert (Hsent : token = access_token self').
  { destruct Hret as [-> | ->]; [discriminate | reflexivity]. }
  assert (Hfin : [extraction_request self' token (String c text)]
                 = [ {| url := entity_extraction_url self;
                        authorization := Some (access_token self');
                        json := {[ "text" := VStr (String c text) ]} |} ]).
  { unfold extraction_request. rewrite Hurl, <- Hsent. reflexivity. }
  rewrite Hsent in Htok.
  destruct (post _) as [|status_code [result|]];
    [| destruct (status_code =? 200);
       [destruct (parse_body result (String c text))|] | destruct (status_code =? 200)];
    (eexists _, _, _; split; [reflexivity|];
     exists requests, [extraction_request self' token (String c text)];
     split; [reflexivity|]; split; [exact Hreq|]; right; split; assumption).
Qed.

(** ** The two token functions side by side *)

Lemma get_access_token_shape (self self' : NLPProcessor) (now later : float)
  (post : request -> http_outcome) (requests : list request) (returned : value) :
  _get_access_token self now later post = Ok (self', requests, returned) ->
  self' = set_token self (access_token self') (token_expiry self').
Proof.
  unfold _get_access_token. intros H.
  apply bind_Ok in H as (valid & _ & H). destruct valid.
  - injection H as <- _ _. now rewrite set_token_same.
  - destruct (store_token _ _ later _) as [[token expiry] r].
    now injection H as <- _ _.
Qed.

Lemma get_workflow_token_shape (self self' : NLPProcessor) (now later : float)
  (post : request -> http_outcome) (requests : list request) (returned : value) :
  _get_diagnostic_workflow_token self now later post
  = Ok (self', requests, returned) ->
  self' = set_workflow_token self (workflow_access_token self')
            (workflow_token_expiry self').
Proof.
  unfold _get_diagnostic_workflow_token. intros H.
  apply bind_Ok in H as (valid & _ & H). destruct valid.
  - injection H as <- _ _. now rewrite set_workflow_token_same.
  - destruct (store_token _ _ later _) as [[token expiry] r].
    now injection H as <- _ _.
Qed.

(** [_get_access_token] does not read the workflow token. *)
Lemma get_access_token_frame (self : NLPProcessor) (token expiry : value)
  (now later : float) (post : request -> http_outcome) :
  _get_access_token (set_workflow_token self token expiry) now later post
  = match _get_access_token self now later post with
    | Ok (self', requests, returned) =>
        Ok (set_workflow_token self' token expiry, requests, returned)
    | Raise x => Raise x
    end.
Proof.
  unfold _get_access_token. cbn [set_workflow_token access_token token_expiry
                                  auth_url client_id client_secret].
  destruct (token_is_valid _ _ now) as [[|]|]; rsimpl; try reflexivity.
  destruct (store_token _ _ later _) as [[t e] r]. reflexivity.
Qed.

Lemma get_workflow_token_frame (self : NLPProcessor) (token expiry : value)
  (now later : float) (post : request -> http_outcome) :
  _get_diagnostic_workflow_token (set_token self token expiry) now later post
  = match _get_diagnostic_workflow_token self now later post with
    | Ok (self', requests, returned) =>
        Ok (set_token self' token expiry, requests, returned)
    | Raise x => Raise x
    end.
Proof.
  unfold _get_diagnostic_workflow_token.
  cbn [set_token workflow_access_token workflow_token_expiry
       auth_url workflow_client_id workflow_client_secret].
  destruct (token_is_valid _ _ now) as [[|]|]; rsimpl; try reflexivity.
  destruct (store_token _ _ later _) as [[t e] r]. reflexivity.
Qed.

(** X9. The two token functions keep separate tokens.  Each returns and
    sends the same, whether it is called before or after the other, and
    the processor is the same after both calls in either order. *)
Theorem token_functions_commute
  (self workflow_done main_done : NLPProcessor)
  (now1 later1 now2 later2 : float) (post1 post2 : request -> http_outcome)
  (requests1 requests2 : list request) (returned1 returned2 : value) :
  _get_diagnostic_workflow_token self now1 later1 post1
  = Ok (workflow_done, requests1, returned1) ->
  _get_access_token self now2 later2 post2
  = Ok (main_done, requests2, returned2) ->
  exists both_done,
    _get_access_token workflow_done now2 later2 post2
    = Ok (both_done, requests2, returned2)
    /\ _get_diagnostic_workflow_token main_done now1 later1 post1
       = Ok (both_done, requests1, returned1).
Proof.
  intros Hw Hm.
  pose proof (get_workflow_token_shape _ _ _ _ _ _ _ Hw) as Sw.
  pose proof (get_access_token_shape _ _ _ _ _ _ _ Hm) as Sm.
  exists (set_workflow_token main_done (workflow_access_token workflow_done)
            (workflow_token_expiry workflow_done)).
  split.
  - rewrite Sw at 1. rewrite get_access_token_frame, Hm. reflexivity.
  - rewrite Sm at 1. rewrite get_workflow_token_frame, Hw. rewrite Sw at 1.
    rewrite Sm. destruct self, main_done, workflow_done. reflexivity.
Qed.

Lemma token_functions_commute_witness :
  exists both_done,
    _get_access_token
      (set_workflow_token sample_processor (VStr "tok") (VFloat 4540))
      2000 2000 no_service
    = Ok (both_done,
          [token_request (auth_url sample_processor) (client_id sample_processor)
             (client_secret sample_processor)],
          VNone)
    /\ _get_diagnostic_workflow_token sample_processor 1000 1000
         (sample_service VNone)
       = Ok (both_done,
             [token_request (auth_url sample_processor) VNone VNone],
             VStr "tok").
Proof.
  exact (token_functions_commute sample_processor
           (set_workflow_token sample_processor (VStr "tok") (VFloat 4540))
           sample_processor 1000 1000 2000 2000 (sample_service VNone) no_service
           [token_request (auth_url sample_processor) VNone VNone]
           [token_request (auth_url sample_processor) (client_id sample_processor)
              (client_secret sample_processor)]
           (VStr "tok") VNone eq_refl eq_refl).
Defined.

(** ** The parser: filters, order and size *)





Lemma merge_none_l (es : Entities) : merge no_entities es = es.
Proof. now destruct es. Qed.

Lemma merge_none_r (es : Entities) : merge es no_entities = es.
Proof. destruct es. unfold merge. cbn. now rewrite !app_nil_r. Qed.

Lemma merge_assoc (a b c : Entities) : merge (merge a b) c = merge a (merge b c).
Proof. unfold merge. cbn. now rewrite <- !app_assoc. Qed.

Lemma merge_append (c : Category) (r : record) (a b : Entities) :
  merge a (append_to c r b) = append_to c r (merge a b).
Proof. destruct c; unfold merge, append_to; cbn; now rewrite !app_assoc. Qed.

(** The loop body adds to the lists and reads none of them. *)
Lemma parse_entity_merge (text : string) (entities : Entities) (e : value) :
  parse_entity text entities e
  = (out ← parse_entity text no_entities e; Ok (merge entities out)).
Proof.
  unfold parse_entity. rsimpl.
  destruct (Value.as_dict e) as [entity|]; [|reflexivity].
  destruct (entity_data text entity) as [[[label r]|]|]; try reflexivity.
  - destruct (map_category label) as [c|].
    + now rewrite merge_append, merge_none_r.
    + now rewrite merge_none_r.
  - now rewrite merge_none_r.
Qed.

Lemma parse_entities_merge (text : string) (es : list value) (entities : Entities) :
  parse_entities text entities es
  = (out ← parse_entities text no_entities es; Ok (merge entities out)).
Proof.
  revert entities; induction es as [|e es IH]; intros entities.
  - cbn. now rewrite merge_none_r.
  - cbn [parse_entities]. rewrite (parse_entity_merge text entities e). rsimpl.
    destruct (parse_entity text no_entities e) as [one|]; [|reflexivity].
    rewrite (IH (merge entities one)), (IH one).
    destruct (parse_entities text no_entities es) as [out|]; [|reflexivity].
    now rewrite merge_assoc.
Qed.

(** X11. The parser keeps the order of the spans and treats each span on
    its own: for a list of spans in two parts it returns, list by list,
    what it returns for the first part followed by what it returns for
    the second, and it raises when it raises for either. *)
Theorem parser_is_list_by_list
  (response : gmap string value) (text : string) (es1 es2 : list value) :
  _parse_extraction_response (<["entities" := VList (es1 ++ es2)]> response) text
  = (out1 ← _parse_extraction_response (<["entities" := VList es1]> response) text;
     out2 ← _parse_extraction_response (<["entities" := VList es2]> response) text;
     Ok (merge out1 out2)).
Proof.
  unfold _parse_extraction_response. rewrite !lookup_insert_eq.
  cbn [Value.iterate]. rsimpl. rewrite parse_entities_app. rsimpl.
  destruct (parse_entities text no_entities es1) as [out1|]; [|reflexivity].
  apply parse_entities_merge.
Qed.

Lemma count_append (c : Category) (r : record) (es : Entities) :
  count (append_to c r es) = S (count es).
Proof.
  destruct c; unfold count, append_to; cbn; rewrite length_app; cbn; lia.
Qed.

Lemma parse_entities_count (text : string) (es : list value)
  (entities out : Entities) :
  parse_entities text entities es = Ok out ->
  (count entities <= count out <= count entities + List.length es)%nat.
Proof.
  revert entities; induction es as [|e es IH]; intros entities H.
  - cbn in H. injection H as <-. cbn. lia.
  - cbn [parse_entities] in H. apply bind_Ok in H as (entities' & He & H).
    apply IH in H. cbn [List.length].
    assert (count entities <= count entities' <= S (count entities))%nat; [|lia].
    unfold parse_entity in He. apply bind_Ok in He as (entity & _ & He).
    apply bind_Ok in He as ([[label r]|] & _ & He); injection He as <-.
    + destruct (map_category label); [rewrite count_append|]; lia.
    + lia.
Qed.

(** X12. The parser returns at most one record for each span: the four
    lists together hold no more records than the response has entities. *)
Theorem parser_returns_at_most_one_record_per_span
  (response : gmap string value) (text : string) (es : list value)
  (out : Entities) :
  response !! "entities" = Some (VList es) ->
  _parse_extraction_response response text = Ok out ->
  (count out <= List.length es)%nat.
Proof.
  intros Hr H. unfold _parse_extraction_response in H. rewrite Hr in H.
  cbn [Value.iterate] in H. rsimpl.
  apply parse_entities_count in H. cbn in H. lia.
Qed.

Lemma parser_returns_at_most_one_record_per_span_witness :
  (count (one_problem (sample_record 12 sample_text (VFloat 0.9) 0.9))
   <= List.length
        [ dict (sample_span 12 24 "present" (VFloat 0.9));
          dict (sample_span 12 24 "absent" (VFloat 0.9)) ])%nat.
Proof.
  apply (parser_returns_at_most_one_record_per_span
           (list_to_map
              [ ("entities",
                 VList [ dict (sample_span 12 24 "present" (VFloat 0.9));
                         dict (sample_span 12 24 "absent" (VFloat 0.9)) ]) ])
           sample_text); reflexivity.
Defined.

(** ** The keyword matcher: what it finds *)

Lemma demo_scan_found (text code_system : string) (confidence : float)
  (keywords : list string) (found : list record) :
  demo_scan text (Str.lower text) code_system confidence found keywords
  = Ok (found ++ demo_found text code_system confidence keywords)%list.
Proof.
  revert found; induction keywords as [|keyword rest IH]; intros found.
  - cbn. now rewrite app_nil_r.
  - cbn [demo_scan]. unfold demo_found. cbn [List.filter].
    destruct (Str.contains keyword (Str.lower text)).
    + rewrite extract_context_int. rsimpl. rewrite IH.
      cbn [List.map]. now rewrite <- app_assoc.
    + apply IH.
Qed.

(** The four loops, each as a map over the keywords that occur. *)
Lemma demo_is_demo_found (text : string) :
  _demo_extract_entities text
  = Ok {| problems := demo_found text "ICD-10-CM" 0.85 problem_keywords;
          procedures := demo_found text "CPT" 0.80 procedure_keywords;
          medications := demo_found text "RxNorm" 0.90 medication_keywords;
          labs := demo_found text "LOINC" 0.75 lab_keywords |}.
Proof. unfold _demo_extract_entities. now rewrite !demo_scan_found. Qed.


(** ** Strings: occurrences, case and slices *)

Lemma len_append (s t : string) : Str.len (s +:+ t) = Str.len s + Str.len t.
Proof.
  unfold Str.len. induction s as [|c s IH]; [reflexivity|].
  rewrite append_cons. cbn [String.length]. lia.
Qed.

Lemma len_nonneg (s : string) : 0 <= Str.len s.
Proof. unfold Str.len. lia. Qed.

Lemma prefix_append (p r : string) : String.prefix p (p +:+ r) = true.
Proof.
  induction p as [|c p IH]; [now destruct r|].
  rewrite append_cons. cbn [String.prefix].
  destruct (ascii_dec c c); [exact IH | congruence].
Qed.

Lemma prefix_split (p s : string) :
  String.prefix p s = true -> exists r, s = p +:+ r.
Proof.
  revert s; induction p as [|c p IH]; intros s H; [now exists s|].
  destruct s as [|d s]; [discriminate|]. cbn [String.prefix] in H.
  destruct (ascii_dec c d) as [->|]; [|discriminate].
  destruct (IH s H) as [r ->]. now exists r.
Qed.

Lemma contains_append (keyword a b : string) :
  Str.contains keyword (a +:+ keyword +:+ b) = true.
Proof.
  induction a as [|c a IH].
  - rewrite append_nil. destruct (keyword +:+ b) eqn:E;
      cbn [Str.contains]; rewrite <- E, prefix_append; reflexivity.
  - rewrite append_cons. cbn [Str.contains]. rewrite IH. apply orb_true_r.
Qed.

(** The first occurrence, where [find] puts it. *)
Lemma find_occurrence (keyword s : string) (i : Z) :
  Str.contains keyword s = true ->
  exists a b, s = a +:+ keyword +:+ b /\ Str.find_from i keyword s = i + Str.len a.
Proof.
  revert i; induction s as [|c s IH]; intros i H.
  - cbn [Str.contains] in H. rewrite orb_false_r in H.
    cbn [Str.find_from]. rewrite H.
    apply prefix_split in H as [r Hr]. exists "", r.
    split; [exact Hr | unfold Str.len; cbn [String.length]; lia].
  - cbn [Str.contains] in H. cbn [Str.find_from].
    destruct (String.prefix keyword (String c s)) eqn:Hp.
    + apply prefix_split in Hp as [r Hr]. exists "", r.
      split; [exact Hr | unfold Str.len; cbn [String.length]; lia].
    + cbn [orb] in H. destruct (IH (i + 1) H) as (a & b & -> & Hf).
      exists (String c a), b. split; [reflexivity|].
      rewrite Hf. unfold Str.len. cbn [String.length]. lia.
Qed.

Lemma map_append (f : ascii -> ascii) (s t : string) :
  Str.map f (s +:+ t) = Str.map f s +:+ Str.map f t.
Proof.
  induction s as [|c s IH]; [reflexivity|].
  rewrite append_cons. cbn [Str.map]. now rewrite append_cons, IH.
Qed.

Lemma map_len (f : ascii -> ascii) (s : string) : Str.len (Str.map f s) = Str.len s.
Proof.
  unfold Str.len. induction s as [|c s IH]; [reflexivity|].
  cbn [Str.map String.length]. lia.
Qed.

Lemma map_append_inv (f : ascii -> ascii) (u v s : string) :
  Str.map f s = u +:+ v ->
  exists u' v', s = u' +:+ v' /\ Str.map f u' = u /\ Str.map f v' = v.
Proof.
  revert s; induction u as [|c u IH]; intros s H.
  - exists "", s. auto.
  - destruct s as [|d s]; [discriminate|].
    rewrite append_cons in H. cbn [Str.map] in H. injection H as Hc H.
    destruct (IH s H) as (u' & v' & -> & Hu & Hv).
    exists (String d u'), v'. cbn [Str.map]. rewrite Hc, Hu. auto.
Qed.

Lemma is_space_lower (c : ascii) : Str.is_space (Str.lower_char c) = Str.is_space c.
Proof. destruct c as [[] [] [] [] [] [] [] []]; reflexivity. Qed.

Lemma first_is_space_lower (s : string) :
  first_is_space (Str.lower s) = first_is_space s.
Proof. destruct s; [reflexivity | apply is_space_lower]. Qed.

Lemma last_is_space_lower (s : string) :
  last_is_space (Str.lower s) = last_is_space s.
Proof.
  induction s as [|c s IH]; [reflexivity|].
  unfold Str.lower in *. cbn [Str.map last_is_space].
  destruct s as [|d s]; [apply is_space_lower | exact IH].
Qed.

Lemma is_empty_lower (s : string) : Str.is_empty (Str.lower s) = Str.is_empty s.
Proof. now destruct s. Qed.

Lemma len_drop (n : nat) (s : string) :
  Str.len (Str.drop n s) = Z.max 0 (Str.len s - Z.of_nat n).
Proof.
  unfold Str.len. revert s; induction n as [|n IH]; intros [|c s];
    cbn [Str.drop String.length]; try lia.
  rewrite IH. lia.
Qed.

Lemma drop_append (n : nat) (a z : string) :
  Z.of_nat n <= Str.len a -> Str.drop n (a +:+ z) = Str.drop n a +:+ z.
Proof.
  unfold Str.len. revert a; induction n as [|n IH]; intros a H;
    [now destruct a|].
  destruct a as [|c a]; cbn [String.length] in H; [lia|].
  rewrite append_cons. cbn [Str.drop]. apply IH. lia.
Qed.

Lemma take_append (n : nat) (u y : string) :
  Str.len u <= Z.of_nat n ->
  Str.take n (u +:+ y) = u +:+ Str.take (n - String.length u) y.
Proof.
  unfold Str.len. revert n; induction u as [|c u IH]; intros n H.
  - rewrite !append_nil. cbn [String.length]. now rewrite Nat.sub_0_r.
  - destruct n as [|n]; cbn [String.length] in H; [lia|].
    rewrite !append_cons. cbn [Str.take String.length Nat.sub].
    rewrite IH by lia. reflexivity.
Qed.

(** A window that covers an occurrence holds it whole. *)
Lemma slice_holds_occurrence (a m b : string) (start stop : Z) :
  0 <= start <= Str.len a ->
  Str.len a + Str.len m <= stop <= Str.len (a +:+ m +:+ b) ->
  0 < Str.len m ->
  exists x y, Str.slice (a +:+ m +:+ b) start stop = x +:+ m +:+ y.
Proof.
  intros Hs He Hm. unfold Str.slice, Str.slice_bound.
  pose proof (len_nonneg a). set (L := Str.len (a +:+ m +:+ b)) in *.
  assert (HL : L = Str.len a + Str.len m + Str.len b)
    by (unfold L; rewrite !len_append; lia).
  pose proof (len_nonneg b).
  destruct (Z.ltb_spec start 0); [lia|].
  destruct (Z.ltb_spec stop 0); [lia|].
  rewrite !Z.min_l by lia.
  destruct (Z.ltb_spec start stop); [|lia].
  rewrite drop_append by lia.
  exists (Str.drop (Z.to_nat start) a).
  rewrite <- append_assoc, take_append.
  - rewrite append_assoc. eauto.
  - rewrite len_append, len_drop. lia.
Qed.

Lemma first_is_space_append (m y : string) :
  Str.is_empty m = false -> first_is_space (m +:+ y) = first_is_space m.
Proof. now destruct m. Qed.

Lemma last_is_space_append (x m : string) :
  Str.is_empty m = false -> last_is_space (x +:+ m) = last_is_space m.
Proof.
  intros Hm. induction x as [|c x IH]; [reflexivity|].
  rewrite append_cons. cbn [last_is_space].
  destruct (x +:+ m) eqn:E; [|exact IH].
  destruct x, m; discriminate.
Qed.

Lemma lstrip_keeps (x z : string) :
  Str.is_empty z = false -> first_is_space z = false ->
  exists x', Str.lstrip (x +:+ z) = x' +:+ z.
Proof.
  intros Hz Hf. induction x as [|c x [x' IH]].
  - exists "". rewrite !append_nil. destruct z as [|d z]; [discriminate|].
    cbn in *. now rewrite Hf.
  - rewrite append_cons. cbn [Str.lstrip].
    destruct (Str.is_space c); [now exists x' | now exists (String c x)].
Qed.

Lemma rstrip_keeps (u y : string) :
  Str.is_empty u = false -> last_is_space u = false ->
  exists y', Str.rstrip (u +:+ y) = u +:+ y'.
Proof.
  intros Hu Hl. induction u as [|c u IH]; [discriminate|].
  rewrite append_cons. cbn [Str.rstrip].
  destruct u as [|d u].
  - rewrite append_nil. cbn in Hl. rewrite Hl. cbn [andb]. now eexists.
  - destruct IH as [y' IH]; [reflexivity | exact Hl |].
    rewrite IH. rewrite append_cons. cbn [Str.is_empty].
    rewrite andb_false_r. now exists y'.
Qed.

Lemma strip_keeps (x m y : string) :
  Str.is_empty m = false -> first_is_space m = false -> last_is_space m = false ->
  exists x' y', Str.strip (x +:+ m +:+ y) = x' +:+ m +:+ y'.
Proof.
  intros Hm Hf Hl. unfold Str.strip.
  destruct (lstrip_keeps x (m +:+ y)) as [x' ->].
  - now destruct m.
  - now rewrite first_is_space_append.
  - rewrite <- append_assoc.
    destruct (rstrip_keeps (x' +:+ m) y) as [y' ->].
    + destruct x', m; try discriminate; reflexivity.
    + now rewrite last_is_space_append.
    + rewrite append_assoc. eauto.
Qed.

Lemma take_all (s : string) : Str.take (String.length s) s = s.
Proof. induction s as [|c s IH]; cbn; [|rewrite IH]; reflexivity. Qed.

Lemma len_take (n : nat) (s : string) : Str.len (Str.take n s) <= Z.of_nat n.
Proof.
  unfold Str.len. revert s; induction n as [|n IH]; intros [|c s];
    cbn [Str.take String.length]; try lia.
  specialize (IH s). lia.
Qed.

Lemma len_substring (core s : string) : substring_of core s -> Str.len core <= Str.len s.
Proof.
  intros (a & b & ->). rewrite !len_append.
  pose proof (len_nonneg a). pose proof (len_nonneg b). lia.
Qed.


Lemma string_drop_ge (n : nat) (s : string) :
  Str.len s <= Z.of_nat n -> Str.drop n s = "".
Proof.
  unfold Str.len. revert s; induction n as [|n IH]; intros [|c s] H;
    cbn [String.length] in H; try reflexivity; try lia.
  cbn [Str.drop]. apply IH. lia.
Qed.


(** A keyword that stands in the text at [offset] splits the text there. *)
Lemma occurrence_in_place (text keyword : string) (offset : Z) :
  0 <= offset ->
  Str.is_empty keyword = false ->
  Str.lower (substring_between text offset (offset + Str.len keyword)) = keyword ->
  exists a m b,
    text = a +:+ m +:+ b /\ Str.len a = offset /\ Str.lower m = keyword.
Proof.
  intros Ho Hk Hp. unfold substring_between in Hp.
  set (D := Str.drop (Z.to_nat offset) text) in *.
  set (m := Str.take (Z.to_nat (offset + Str.len keyword - offset)) D) in *.
  exists (Str.take (Z.to_nat offset) text), m,
         (Str.drop (Z.to_nat (offset + Str.len keyword - offset)) D).
  assert (HD : D = m +:+ Str.drop (Z.to_nat (offset + Str.len keyword - offset)) D)
    by apply take_drop.
  assert (Ht : text = Str.take (Z.to_nat offset) text +:+ D) by apply take_drop.
  split; [now rewrite <- HD|]. split; [|exact Hp].
  assert (Hm : 0 < Str.len m).
  { rewrite <- Hp in Hk. rewrite is_empty_lower in Hk.
    destruct m; [discriminate|]. unfold Str.len. cbn [String.length]. lia. }
  assert (HlD : 0 < Str.len D).
  { rewrite HD, len_append.
    pose proof (len_nonneg (Str.drop (Z.to_nat (offset + Str.len keyword - offset)) D)).
    lia. }
  pose proof (len_drop (Z.to_nat offset) text) as Hd. fold D in Hd.
  apply (f_equal Str.len) in Ht. rewrite len_append in Ht. lia.
Qed.

(** The window around a keyword that stands in the text holds it. *)
Lemma context_holds_keyword (text keyword : string) :
  keyword_ok keyword = true ->
  Str.contains keyword (Str.lower text) = true ->
  match_in_place text keyword = true ->
  Str.contains keyword
    (Str.lower (extractContext_spec text (Str.find keyword (Str.lower text))
                  (Str.len keyword) 50)) = true.
Proof.
  unfold keyword_ok, trimmed. rewrite !andb_true_iff, !negb_true_iff.
  intros (Hk & Hf & Hl) Hc Hp.
  destruct (find_occurrence keyword (Str.lower text) 0 Hc) as (a0 & b0 & _ & Ho).
  unfold match_in_place in Hp. apply String.eqb_eq in Hp.
  unfold Str.find in *. rewrite Ho in *. pose proof (len_nonneg a0).
  destruct (occurrence_in_place text keyword (0 + Str.len a0)) as (a & m & b & -> & Ha & <-);
    [lia | exact Hk | exact Hp |].
  clear Hp Ho Hc. rewrite <- Ha. clear Ha a0 b0 H.
  rewrite is_empty_lower in Hk. rewrite first_is_space_lower in Hf.
  rewrite last_is_space_lower in Hl.
  rewrite (map_len Str.lower_char m : Str.len (Str.lower m) = Str.len m).
  assert (Hm : 0 < Str.len m).
  { destruct m; [discriminate|]. unfold Str.len. cbn [String.length]. lia. }
  pose proof (len_nonneg a). pose proof (len_nonneg b).
  unfold extractContext_spec.
  destruct (a +:+ m +:+ b) as [|c0 rest] eqn:E.
  { apply (f_equal Str.len) in E. rewrite !len_append in E.
    unfold Str.len at 4 in E. cbn in E. lia. }
  rewrite <- E. clear E c0 rest. cbn zeta.
  destruct (slice_holds_occurrence a m b
              (Z.max 0 (Str.len a - 50))
              (Z.min (Str.len (a +:+ m +:+ b))
                 (Str.len a + Str.len m + 50)))
    as (x & y & ->); [lia | rewrite !len_append; lia | lia |].
  destruct (strip_keeps x m y Hk Hf Hl) as (x' & y' & ->).
  set (before := if 0 <? _ then ellipsis else "").
  set (after := if _ <? _ then ellipsis else "").
  replace (before +:+ (x' +:+ m +:+ y') +:+ after)
    with ((before +:+ x') +:+ m +:+ (y' +:+ after))
    by now rewrite !append_assoc.
  unfold Str.lower. rewrite !map_append. apply contains_append.
Qed.

Lemma table_keywords_ok : forallb keyword_ok all_keywords = true.
Proof. reflexivity. Qed.

Lemma demo_found_shows_keyword (text code_system : string) (confidence : float)
  (keywords : list string) (r : record) :
  forallb keyword_ok keywords = true ->
  forallb
    (fun keyword =>
       implb (Str.contains keyword (Str.lower text)) (match_in_place text keyword))
    keywords = true ->
  r ∈ demo_found text code_system confidence keywords ->
  context_shows_keyword r.
Proof.
  intros Hok Hplace Hin. apply list_elem_of_In in Hin. unfold demo_found in Hin.
  apply in_map_iff in Hin as (keyword & <- & Hk).
  apply filter_In in Hk as [Hk Hc].
  exists keyword. eexists. split; [reflexivity|]. split; [reflexivity|].
  rewrite forallb_forall in Hok, Hplace.
  apply context_holds_keyword; [now apply Hok | exact Hc |].
  specialize (Hplace keyword Hk). now rewrite Hc in Hplace.
Qed.

(** In a text of this model, whose characters are all below U+0100, every
    keyword found stands in the text where it was found. *)
Lemma lower_keeps_places (text : string) : matches_in_place text = true.
Proof.
  unfold matches_in_place. apply forallb_forall. intros keyword _.
  destruct (Str.contains keyword (Str.lower text)) eqn:Hc; [|reflexivity].
  cbn [implb]. unfold match_in_place. apply String.eqb_eq.
  destruct (find_occurrence keyword (Str.lower text) 0 Hc) as (a & b & Hs & Ho).
  unfold Str.find. rewrite Ho.
  apply map_append_inv in Hs as (a' & v & -> & <- & Hv).
  apply map_append_inv in Hv as (m & b' & -> & <- & <-).
  rewrite !map_len. unfold substring_between.
  replace (Z.to_nat (0 + Str.len a' + Str.len m - (0 + Str.len a')))
    with (String.length m) by (unfold Str.len; lia).
  replace (Z.to_nat (0 + Str.len a')) with (String.length a')
    by (unfold Str.len; lia).
  rewrite drop_append by (unfold Str.len; lia).
  rewrite (string_drop_ge (String.length a') a') by (unfold Str.len; lia).
  rewrite append_nil, take_append by (unfold Str.len; lia).
  rewrite Nat.sub_diag. cbn [Str.take]. now rewrite append_empty_r.
Qed.

(** X14. When every keyword that occurs in the lower-cased text stands in
    the text itself at the offset found (as it does whenever lower-casing
    keeps every position, so for every text whose characters are all
    below U+0100), every record of the keyword matcher shows what it
    matched: its context, lower-cased, contains the keyword that its text
    names. *)
Theorem demo_context_contains_keyword (text : string) :
  matches_in_place text = true ->
  exists out,
    _demo_extract_entities text = Ok out
    /\ all_records context_shows_keyword out.
Proof.
  intros Hplace. eexists. split; [apply demo_is_demo_found|].
  pose proof table_keywords_ok as H. unfold matches_in_place, all_keywords in *.
  rewrite !forallb_app, !andb_true_iff in H, Hplace.
  destruct H as (Hp & Hc & Hm & Hl). destruct Hplace as (Pp & Pc & Pm & Pl).
  intros [] r Hin; cbn [category_of problems procedures medications labs] in Hin;
    (eapply demo_found_shows_keyword; [| |exact Hin]; assumption).
Qed.

Lemma demo_context_contains_keyword_witness :
  exists out,
    _demo_extract_entities sample_text = Ok out
    /\ all_records context_shows_keyword out.
Proof.
  apply (demo_context_contains_keyword sample_text). vm_compute. reflexivity.
Defined.

(** ** The context window: the borders *)

(** X15. A window that covers the whole text is the text, trimmed, with
    no ellipsis. *)
Theorem window_over_whole_text (text : string) (offset length windowRadius : Z) :
  offset - windowRadius <= 0 ->
  Str.len text <= offset + length + windowRadius ->
  _extract_context text (NInt offset) (NInt length) (NInt windowRadius)
  = Ok (Str.strip text).
Proof.
  intros Hs He. rewrite extract_context_int. unfold extractContext_spec.
  destruct text as [|c text]; [reflexivity|].
  set (t := String c text) in *.
  assert (Ht : 0 < Str.len t) by (unfold t, Str.len; cbn [String.length]; lia).
  rewrite Z.max_l, Z.min_l by lia.
  rewrite !Z.ltb_irrefl.
  rewrite append_nil, append_empty_r. do 2 f_equal.
  unfold Str.slice, Str.slice_bound. cbn [Z.ltb Z.compare].
  destruct (Z.ltb_spec (Str.len t) 0); [lia|].
  rewrite Z.min_l, Z.min_id by lia.
  destruct (Z.ltb_spec 0 (Str.len t)); [|lia].
  cbn [Z.to_nat Str.drop]. rewrite Z.sub_0_r. unfold Str.len.
  rewrite Nat2Z.id. apply take_all.
Qed.

Lemma window_over_whole_text_witness :
  _extract_context "  hello world " (NInt 2) (NInt 5) (NInt 100)
  = Ok (Str.strip "  hello world ").
Proof.
  apply (window_over_whole_text "  hello world " 2 5 100); vm_compute; discriminate.
Defined.

(** X16. When [offset + length + windowRadius] is not negative, the
    context is no longer than [length + 2 * windowRadius] characters and
    the two ellipses. *)
Theorem window_length_is_bounded (text : string) (offset length windowRadius : Z) :
  0 <= offset + length + windowRadius ->
  exists context,
    _extract_context text (NInt offset) (NInt length) (NInt windowRadius)
    = Ok context
    /\ Str.len context <= Z.max 0 (length + 2 * windowRadius) + 6.
Proof.
  intros He. rewrite extract_context_int. eexists. split; [reflexivity|].
  unfold extractContext_spec. destruct text as [|c text].
  { unfold Str.len. cbn. lia. }
  set (t := String c text). set (start := Z.max 0 _). set (stop := Z.min _ _).
  rewrite !len_append.
  assert (Hb : Str.len (if 0 <? start then ellipsis else "") <= 3)
    by (destruct (0 <? start); unfold Str.len; cbn; lia).
  assert (Ha : Str.len (if stop <? Str.len t then ellipsis else "") <= 3)
    by (destruct (stop <? Str.len t); unfold Str.len; cbn; lia).
  pose proof (len_substring _ _ (strip_substring (Str.slice t start stop))) as Hst.
  assert (Hsl : Str.len (Str.slice t start stop) <= Z.max 0 (length + 2 * windowRadius)).
  { unfold Str.slice, Str.slice_bound. pose proof (len_nonneg t).
    destruct (Z.ltb_spec start 0); [unfold start in *; lia|].
    destruct (Z.ltb_spec stop 0); [unfold stop in *; lia|].
    destruct (Z.ltb_spec (Z.min start (Str.len t)) (Z.min stop (Str.len t))).
    - pose proof (len_take (Z.to_nat (Z.min stop (Str.len t) - Z.min start (Str.len t)))
                    (Str.drop (Z.to_nat (Z.min start (Str.len t))) t)).
      unfold start, stop in *. lia.
    - unfold Str.len at 1. cbn. lia. }
  lia.
Qed.

Lemma window_length_is_bounded_witness :
  exists context,
    _extract_context sample_text (NInt 12) (NInt 12) (NInt 3) = Ok context
    /\ Str.len context <= Z.max 0 (12 + 2 * 3) + 6.
Proof.
  apply (window_length_is_bounded sample_text 12 12 3). vm_compute. discriminate.
Defined.



(** ** The constructor *)

(** X18. A processor built from a configuration without the client id or
    without the client secret has no workflow credentials either, even
    when the configuration holds them: its first workflow token request
    carries [None] for both. *)
Theorem workflow_credentials_need_client_credentials
  (config : gmap string value) (now later : float)
  (post : request -> http_outcome) :
  config !! "imo_client_id" = None \/ config !! "imo_client_secret" = None ->
  exists self' returned,
    _get_diagnostic_workflow_token (__init__ config) now later post
    = Ok (self',
          [token_request (auth_url (__init__ config)) VNone VNone],
          returned).
Proof.
  intros Hc. unfold _get_diagnostic_workflow_token.
  assert (Hi : workflow_access_token (__init__ config) = VNone
               /\ workflow_token_expiry (__init__ config) = VNone
               /\ workflow_client_id (__init__ config) = VNone
               /\ workflow_client_secret (__init__ config) = VNone).
  { unfold __init__.
    destruct Hc as [-> | ->]; [|destruct (config !! "imo_client_id")];
      repeat split. }
  destruct Hi as (-> & -> & -> & ->). cbn [token_is_valid truthy]. rsimpl.
  destruct (store_token _ _ _ _) as [[token expiry] returned].
  eauto.
Qed.

Lemma workflow_credentials_need_client_credentials_witness :
  exists self' returned,
    _get_diagnostic_workflow_token
      (__init__ (list_to_map
                   [ ("imo_client_id", VStr "id");
                     ("imo_diagnostic_workflow_client_id", VStr "w");
                     ("imo_diagnostic_workflow_client_secret", VStr "s") ]))
      1000 1000 no_service
    = Ok (self',
          [token_request
             (auth_url (__init__ (list_to_map
                   [ ("imo_client_id", VStr "id");
                     ("imo_diagnostic_workflow_client_id", VStr "w");
                     ("imo_diagnostic_workflow_client_secret", VStr "s") ])))
             VNone VNone],
          returned).
Proof.
  apply (workflow_credentials_need_client_credentials
           (list_to_map
              [ ("imo_client_id", VStr "id");
                ("imo_diagnostic_workflow_client_id", VStr "w");
                ("imo_diagnostic_workflow_client_secret", VStr "s") ])
           1000 1000 no_service).
  right. reflexivity.
Defined.

(** ** The processor over several calls *)

(** X19. From a processor whose stored workflow expiry is [None] or a
    float, [_get_diagnostic_workflow_token] does not raise and keeps the
    expiry so; it makes at most one request, with the workflow
    credentials; what it returns is [None] or the token it has stored; and
    it changes nothing but the workflow token and its expiry. *)
Theorem get_workflow_token_keeps_processor
  (self : NLPProcessor) (now later : float) (post : request -> http_outcome) :
  expiry_ok (workflow_token_expiry self) ->
  exists self' requests returned,
    _get_diagnostic_workflow_token self now later post
    = Ok (self', requests, returned)
    /\ expiry_ok (workflow_token_expiry self')
    /\ (returned = VNone \/ returned = workflow_access_token self')
    /\ (requests = []
        \/ requests = [token_request (auth_url self) (workflow_client_id self)
                         (workflow_client_secret self)])
    /\ self' = set_workflow_token self (workflow_access_token self')
                 (workflow_token_expiry self').
Proof.
  intros Hok. unfold _get_diagnostic_workflow_token.
  destruct (token_is_valid_total (workflow_access_token self)
              (workflow_token_expiry self) now Hok) as [valid ->].
  rsimpl. destruct valid.
  - exists self, [], (workflow_access_token self).
    rewrite set_workflow_token_same. auto 6.
  - destruct (store_token _ _ later _) as [[token expiry] returned] eqn:Hs.
    eexists _, _, _. split; [reflexivity|]. cbn.
    apply store_token_returns_stored in Hs as [[-> ->]|[-> [f ->]]].
    + repeat split; auto.
    + repeat split; auto. right. eauto.
Qed.

Lemma get_workflow_token_keeps_processor_witness :
  exists self' requests returned,
    _get_diagnostic_workflow_token sample_processor 1000 1000 (sample_service VNone)
    = Ok (self', requests, returned)
    /\ expiry_ok (workflow_token_expiry self')
    /\ (returned = VNone \/ returned = workflow_access_token self')
    /\ (requests = []
        \/ requests = [token_request (auth_url sample_processor)
                         (workflow_client_id sample_processor)
                         (workflow_client_secret sample_processor)])
    /\ self' = set_workflow_token sample_processor (workflow_access_token self')
                 (workflow_token_expiry self').
Proof.
  apply (get_workflow_token_keeps_processor sample_processor 1000 1000
           (sample_service VNone)).
  left. reflexivity.
Defined.

(** X20. [extract_entities] changes nothing of the processor but the
    stored token and its expiry, and a stored expiry that is [None] or a
    float stays so. *)
Theorem extract_entities_keeps_processor
  (self : NLPProcessor) (text : string) (now later : float)
  (post : request -> http_outcome) :
  exists self' requests entities,
    extract_entities self text now later post = Ok (self', requests, entities)
    /\ self' = set_token self (access_token self') (token_expiry self')
    /\ (expiry_ok (token_expiry self) -> expiry_ok (token_expiry self')).
Proof.
  destruct (demo_never_raises text) as [demo Hd].
  unfold extract_entities. destruct text as [|c text]; cbn [Str.is_empty].
  { eexists _, _, _. split; [reflexivity|]. now rewrite set_token_same. }
  rewrite Hd. rsimpl.
  destruct (negb _ || negb _).
  { eexists _, _, _. split; [reflexivity|]. now rewrite set_token_same. }
  destruct (_get_access_token self now later post)
    as [[[self' requests] token]|] eqn:Hg.
  2: { eexists _, _, _. split; [reflexivity|]. now rewrite set_token_same. }
  assert (Hs : self' = set_token self (access_token self') (token_expiry self')
               /\ (expiry_ok (token_expiry self) -> expiry_ok (token_expiry self'))).
  { split; [eapply get_access_token_shape; exact Hg|].
    intros Hok.
    destruct (get_access_token_total self now later post Hok)
      as (s & rq & ret & Hg' & Hok' & _).
    rewrite Hg in Hg'. now injection Hg' as -> _ _. }
  destruct (negb (truthy token)).
  { eexists _, _, _. split; [reflexivity | exact Hs]. }
  destruct (post _) as [|status_code [result|]];
    [| destruct (status_code =? 200);
       [destruct (parse_body result (String c text))|] | destruct (status_code =? 200)];
    (eexists _, _, _; split; [reflexivity | exact Hs]).
Qed.

(** X21. With credentials and a stored token that is still valid,
    [extract_entities] on a text that is not empty sends the extraction
    request and nothing else, and leaves the processor as it is. *)
Theorem valid_token_sends_one_request
  (self : NLPProcessor) (text : string) (now later : float)
  (post : request -> http_outcome) :
  Str.is_empty text = false ->
  truthy (client_id self) = true ->
  truthy (client_secret self) = true ->
  token_is_valid (access_token self) (token_expiry self) now = Ok true ->
  exists entities,
    extract_entities self text now later post
    = Ok (self, [extraction_request self (access_token self) text], entities).
Proof.
  intros Ht Hi Hs Hv.
  destruct (demo_never_raises text) as [demo Hd].
  unfold extract_entities, _get_access_token.
  rewrite Ht, Hi, Hs, Hv, Hd. cbn [negb orb]. rsimpl.
  assert (Htok : truthy (access_token self) = true).
  { unfold token_is_valid in Hv. destruct (truthy (access_token self));
      [reflexivity | discriminate]. }
  rewrite Htok. cbn [negb app].
  destruct (post _) as [|status_code [result|]];
    [| destruct (status_code =? 200);
       [destruct (parse_body result text)|] | destruct (status_code =? 200)];
    eauto.
Qed.

Lemma valid_token_sends_one_request_witness :
  exists entities,
    extract_entities (set_token sample_processor (VStr "tok") (VFloat 4540))
      sample_text 2000 2000
      (sample_service (VDict (response_of (sample_span 12 24 "present" (VFloat 0.9)))))
    = Ok (set_token sample_processor (VStr "tok") (VFloat 4540),
          [extraction_request (set_token sample_processor (VStr "tok") (VFloat 4540))
             (access_token (set_token sample_processor (VStr "tok") (VFloat 4540)))
             sample_text],
          entities).
Proof.
  apply (valid_token_sends_one_request
           (set_token sample_processor (VStr "tok") (VFloat 4540))
           sample_text 2000 2000
           (sample_service
              (VDict (response_of (sample_span 12 24 "present" (VFloat 0.9))))));
    reflexivity.
Defined.

(** ** The context window between its bounds *)







(** ** The parser: a span among the others *)




